(** * minikv: wire codec, command router and connection session

    A shallow embedding of [skeleton.py]: the RESP-like codec of
    [ProtocolHandler], the store commands of [Server] and the loop of
    [Server.connection_handler].

    Modelling conventions.
    - A byte is a [Z] in 0..255, [bytes] is a list of them; a [str] is the
      list of its code points.
    - The read side of [socket_file] is the list of bytes the peer sends
      before closing; every read returns the data and the remaining stream.
      What the session writes is accumulated in a list.
    - Exceptions are values of [exn]; a computation returns [result].
    - Python integers are unbounded ([Z]); the interpreter's recursion limit
      and its limit on the number of digits of an integer literal are not
      modelled.
    - A [dict] is the list of its items in insertion order, keys pairwise
      different; keys are compared with [==], which on hashable values of
      this model is structural equality. *)

From Stdlib Require Import String Ascii.
From Stdlib Require Import ZArith List Lia Bool.
Import ListNotations.
Local Open Scope Z_scope.

(** ** Bytes, text and exceptions *)

Definition bytes := list Z.
Definition str := list Z.

(** An ASCII literal, as bytes or as text. *)
Definition lit (s : string) : list Z :=
  map (fun a => Z.of_N (N_of_ascii a)) (list_ascii_of_string s).
Arguments lit s%_string.

Definition CRLF : bytes := [13; 10].

Inductive exn :=
| Disconnect
| CommandError (msg : str)
| ValueError
| TypeError
| AttributeError
| UnicodeDecodeError
| UnicodeEncodeError
| StopIteration.

Inductive result (A : Type) :=
| Ok (a : A)
| Raise (e : exn)
| OutOfFuel.
Arguments Ok {A} a.
Arguments Raise {A} e.
Arguments OutOfFuel {A}.

Definition bind {A B} (r : result A) (k : A -> result B) : result B :=
  match r with
  | Ok a => k a
  | Raise e => Raise e
  | OutOfFuel => OutOfFuel
  end.

Notation "x <- r ;; k" := (bind r (fun x => k))
  (at level 61, r at next level, right associativity).
Notation "' p <- r ;; k" := (bind r (fun p => k))
  (at level 61, p pattern, r at next level, right associativity).

(** ** Library functions of the interpreter used by the source *)

(** [bytes.rstrip(chars)]: drop the trailing bytes that satisfy [p]. *)
Fixpoint rstrip (p : Z -> bool) (l : bytes) : bytes :=
  match l with
  | [] => []
  | c :: t =>
      match rstrip p t with
      | [] => if p c then [] else [c]
      | t' => c :: t'
      end
  end.

Fixpoint lstrip (p : Z -> bool) (l : bytes) : bytes :=
  match l with
  | [] => []
  | c :: t => if p c then lstrip p t else l
  end.

Definition is_crlf (c : Z) : bool := (c =? 13) || (c =? 10).

(** ASCII white space, as [bytes.split], [int] and [Py_ISSPACE] see it. *)
Definition is_space (c : Z) : bool := (c =? 32) || ((9 <=? c) && (c <=? 13)).

Definition is_digit (c : Z) : bool := (48 <=? c) && (c <=? 57).

(** The digits of [int(b)]: decimal digits, single underscores allowed
    between two digits. *)
Fixpoint parse_digits (acc : Z) (after_underscore : bool) (l : bytes)
  : option Z :=
  match l with
  | [] => if after_underscore then None else Some acc
  | c :: t =>
      if is_digit c then parse_digits (10 * acc + (c - 48)) false t
      else if c =? 95 then
        if after_underscore then None else parse_digits acc true t
      else None
  end.

(** [int(b)] on a bytes object, base 10: surrounding white space, an
    optional sign, then the digits. *)
Definition py_int (b : bytes) : result Z :=
  let b := rstrip is_space (lstrip is_space b) in
  let signed :=
    match b with
    | c :: t => if c =? 45 then (true, t) else if c =? 43 then (false, t)
                else (false, b)
    | [] => (false, b)
    end in
  match snd signed with
  | [] => Raise ValueError
  | c :: _ =>
      if is_digit c then
        match parse_digits 0 false (snd signed) with
        | Some n => Ok (if fst signed then - n else n)
        | None => Raise ValueError
        end
      else Raise ValueError
  end.

(** [b'%d' % n]. *)
Fixpoint digits_of (fuel : nat) (n : Z) (acc : bytes) : bytes :=
  match fuel with
  | O => acc
  | S f =>
      let acc' := (48 + n mod 10) :: acc in
      if n <? 10 then acc' else digits_of f (n / 10) acc'
  end.

Definition fmt_nat (n : Z) : bytes :=
  digits_of (S (Z.to_nat (Z.log2 n))) n [].

Definition fmt_d (n : Z) : bytes :=
  if n <? 0 then 45 :: fmt_nat (- n) else fmt_nat n.

(** [socket_file.readline()]: up to and including the first line feed, or
    what is left of the stream. *)
Fixpoint readline (s : bytes) : bytes * bytes :=
  match s with
  | [] => ([], [])
  | c :: t =>
      if c =? 10 then ([c], t)
      else let (l, r) := readline t in (c :: l, r)
  end.

(** [socket_file.read(n)]: [n] bytes or fewer at the end of the stream;
    [read(-1)] reads to the end; a smaller [n] is refused. *)
Definition read (n : Z) (s : bytes) : result (bytes * bytes) :=
  if n <? -1 then Raise ValueError
  else if n =? -1 then Ok (s, [])
  else Ok (firstn (Z.to_nat n) s, skipn (Z.to_nat n) s).

(** [data[:-2]]. *)
Definition drop_last2 (data : bytes) : bytes :=
  firstn (length data - 2) data.

(** *** UTF-8 *)

Definition is_surrogate (c : Z) : bool := (55296 <=? c) && (c <? 57344).

Definition utf8_encode_char (c : Z) : option bytes :=
  if c <? 0 then None
  else if c <? 128 then Some [c]
  else if c <? 2048 then Some [192 + c / 64; 128 + c mod 64]
  else if c <? 65536 then
    if is_surrogate c then None
    else Some [224 + c / 4096; 128 + (c / 64) mod 64; 128 + c mod 64]
  else if c <? 1114112 then
    Some [240 + c / 262144; 128 + (c / 4096) mod 64;
          128 + (c / 64) mod 64; 128 + c mod 64]
  else None.

(** [s.encode('utf-8')]; [None] stands for [UnicodeEncodeError]. *)
Fixpoint utf8_encode (s : str) : option bytes :=
  match s with
  | [] => Some []
  | c :: t =>
      match utf8_encode_char c, utf8_encode t with
      | Some b, Some bt => Some (b ++ bt)
      | _, _ => None
      end
  end.

Definition is_cont (b : Z) : bool := (128 <=? b) && (b <? 192).

(** [b.decode('utf-8')], strict: no overlong form, no surrogate, nothing
    above U+10FFFF; [None] stands for [UnicodeDecodeError]. *)
Fixpoint utf8_decode (l : bytes) : option str :=
  match l with
  | [] => Some []
  | b0 :: t0 =>
      if (0 <=? b0) && (b0 <? 128) then option_map (cons b0) (utf8_decode t0)
      else if (194 <=? b0) && (b0 <? 224) then
        match t0 with
        | b1 :: t1 =>
            if is_cont b1 then
              option_map (cons ((b0 - 192) * 64 + (b1 - 128))) (utf8_decode t1)
            else None
        | _ => None
        end
      else if (224 <=? b0) && (b0 <? 240) then
        match t0 with
        | b1 :: b2 :: t2 =>
            let c := (b0 - 224) * 4096 + (b1 - 128) * 64 + (b2 - 128) in
            if is_cont b1 && is_cont b2 && (2048 <=? c) && negb (is_surrogate c)
            then option_map (cons c) (utf8_decode t2)
            else None
        | _ => None
        end
      else if (240 <=? b0) && (b0 <? 245) then
        match t0 with
        | b1 :: b2 :: b3 :: t3 =>
            let c := (b0 - 240) * 262144 + (b1 - 128) * 4096
                     + (b2 - 128) * 64 + (b3 - 128) in
            if is_cont b1 && is_cont b2 && is_cont b3
               && (65536 <=? c) && (c <? 1114112)
            then option_map (cons c) (utf8_decode t3)
            else None
        | _ => None
        end
      else None
  end.

(** *** Splitting and case *)

(** White space for [str.split()] ([Py_UNICODE_ISSPACE]). *)
Definition is_unicode_space (c : Z) : bool :=
  ((9 <=? c) && (c <=? 13)) || ((28 <=? c) && (c <=? 32))
  || (c =? 133) || (c =? 160) || (c =? 5760)
  || ((8192 <=? c) && (c <=? 8202))
  || (c =? 8232) || (c =? 8233) || (c =? 8239) || (c =? 8287) || (c =? 12288).

(** [x.split()] without argument: the maximal runs of characters that are
    not white space; [cur] is the current run, reversed. *)
Fixpoint split_ws (sp : Z -> bool) (cur : list Z) (l : list Z)
  : list (list Z) :=
  match l with
  | [] => match cur with [] => [] | _ => [rev cur] end
  | c :: t =>
      if sp c then
        match cur with
        | [] => split_ws sp [] t
        | _ => rev cur :: split_ws sp [] t
        end
      else split_ws sp (c :: cur) t
  end.

Definition str_split (s : str) : list str := split_ws is_unicode_space [] s.
Definition bytes_split (b : bytes) : list bytes := split_ws is_space [] b.

(** [str.upper()] maps every character on its own: ASCII letters by the
    usual shift, the others through the interpreter's Unicode table
    [to_upper_full], which may give several characters. *)
Definition str_upper (to_upper_full : Z -> list Z) (s : str) : str :=
  flat_map (fun c =>
    if c <? 128 then [if (97 <=? c) && (c <=? 122) then c - 32 else c]
    else to_upper_full c) s.

Fixpoint str_eqb (a b : list Z) : bool :=
  match a, b with
  | [], [] => true
  | x :: a', y :: b' => (x =? y) && str_eqb a' b'
  | _, _ => false
  end.

(** ** Values *)

(** The objects the codec produces and accepts: [str], [bytes], [int],
    [Error(message)], [None], [list] and [dict]. *)
#[local] Unset Elimination Schemes.
Inductive value :=
| VStr (s : str)
| VBytes (b : bytes)
| VInt (n : Z)
| VError (message : str)
| VNone
| VList (l : list value)
| VDict (d : list (value * value)).
#[local] Set Elimination Schemes.

Definition dict := list (value * value).

(** Lists and dicts have no hash: using one as a key raises [TypeError]. *)
Definition hashable (v : value) : bool :=
  match v with
  | VList _ | VDict _ => false
  | _ => true
  end.

(** [a == b] for two hashable values. *)
Definition key_eqb (a b : value) : bool :=
  match a, b with
  | VStr s, VStr t => str_eqb s t
  | VBytes s, VBytes t => str_eqb s t
  | VInt n, VInt m => n =? m
  | VError s, VError t => str_eqb s t
  | VNone, VNone => true
  | _, _ => false
  end.

(** [d.get(k)] for a hashable [k]. *)
Fixpoint dict_get (k : value) (d : dict) : option value :=
  match d with
  | [] => None
  | (k', v) :: t => if key_eqb k k' then Some v else dict_get k t
  end.

(** [d[k] = v] for a hashable [k]: an existing key keeps its place. *)
Fixpoint dict_set (k v : value) (d : dict) : dict :=
  match d with
  | [] => [(k, v)]
  | (k', v') :: t =>
      if key_eqb k k' then (k', v) :: t else (k', v') :: dict_set k v t
  end.

Fixpoint dict_remove (k : value) (d : dict) : dict :=
  match d with
  | [] => []
  | (k', v) :: t => if key_eqb k k' then t else (k', v) :: dict_remove k t
  end.

(** [dict(pairs)], starting from [acc]. *)
Fixpoint dict_of_pairs (acc : dict) (pairs : list (value * value))
  : result dict :=
  match pairs with
  | [] => Ok acc
  | (k, v) :: t =>
      if hashable k then dict_of_pairs (dict_set k v acc) t
      else Raise TypeError
  end.

(** [items[0::2]]; [items[1::2]] is [every_other (tl items)]. *)
Fixpoint every_other {A} (l : list A) : list A :=
  match l with
  | x :: _ :: t => x :: every_other t
  | l => l
  end.

(** ** ProtocolHandler: decoding *)

Definition handle_simple_string (s : bytes) : result (value * bytes) :=
  let (line, s) := readline s in
  match utf8_decode (rstrip is_crlf line) with
  | Some t => Ok (VStr t, s)
  | None => Raise UnicodeDecodeError
  end.

Definition handle_error (s : bytes) : result (value * bytes) :=
  let (line, s) := readline s in
  match utf8_decode (rstrip is_crlf line) with
  | Some t => Ok (VError t, s)
  | None => Raise UnicodeDecodeError
  end.

Definition handle_integer (s : bytes) : result (value * bytes) :=
  let (line, s) := readline s in
  n <- py_int (rstrip is_crlf line) ;;
  Ok (VInt n, s).

(** [try: return s.decode('utf-8') except UnicodeDecodeError: return s]. *)
Definition decode_or_raw (s : bytes) : value :=
  match utf8_decode s with
  | Some t => VStr t
  | None => VBytes s
  end.

Definition handle_string (s : bytes) : result (value * bytes) :=
  let (length_line, s) := readline s in
  length <- py_int (rstrip is_crlf length_line) ;;
  if length =? -1 then Ok (VNone, s)
  else
    '(data, s) <- read (length + 2) s ;;
    Ok (decode_or_raw (drop_last2 data), s).

(** [[self.handle_request(socket_file) for _ in range(num)]]; [rec] is
    [handle_request]. *)
Fixpoint read_items (rec : bytes -> result (value * bytes)) (num : nat)
  (s : bytes) : result (list value * bytes) :=
  match num with
  | O => Ok ([], s)
  | S num' =>
      '(v, s) <- rec s ;;
      '(vs, s) <- read_items rec num' s ;;
      Ok (v :: vs, s)
  end.

Definition handle_array (rec : bytes -> result (value * bytes)) (s : bytes)
  : result (value * bytes) :=
  let (length_line, s) := readline s in
  num <- py_int (rstrip is_crlf length_line) ;;
  '(items, s) <- read_items rec (Z.to_nat num) s ;;
  Ok (VList items, s).

Definition handle_dict (rec : bytes -> result (value * bytes)) (s : bytes)
  : result (value * bytes) :=
  let (length_line, s) := readline s in
  num <- py_int (rstrip is_crlf length_line) ;;
  '(items, s) <- read_items rec (Z.to_nat (num * 2)) s ;;
  d <- dict_of_pairs [] (combine (every_other items) (every_other (tl items))) ;;
  Ok (VDict d, s).

(** [handle_request]: fuel bounds the nesting depth of the frame; every
    level reads its tag byte, so the length of the stream plus one is
    always enough (see [decode]). *)
Fixpoint handle_request (fuel : nat) (s : bytes) : result (value * bytes) :=
  match fuel with
  | O => OutOfFuel
  | S fuel' =>
      match s with
      | [] => Raise Disconnect
      | first_byte :: s =>
          if first_byte =? 43 then handle_simple_string s
          else if first_byte =? 45 then handle_error s
          else if first_byte =? 58 then handle_integer s
          else if first_byte =? 36 then handle_string s
          else if first_byte =? 42 then handle_array (handle_request fuel') s
          else if first_byte =? 37 then handle_dict (handle_request fuel') s
          else Raise (CommandError (lit "bad request"))
      end
  end.

Definition decode (s : bytes) : result (value * bytes) :=
  handle_request (S (length s)) s.

(** ** ProtocolHandler: encoding *)

Section WriteSeq.
Variable write : value -> result bytes.

(** [for item in data: self._write(buf, item)]. *)
Fixpoint write_items (l : list value) : result bytes :=
  match l with
  | [] => Ok []
  | item :: t =>
      b <- write item ;;
      bt <- write_items t ;;
      Ok (b ++ bt)
  end.

(** [for k, v in data.items(): self._write(buf, k); self._write(buf, v)]. *)
Fixpoint write_pairs (d : list (value * value)) : result bytes :=
  match d with
  | [] => Ok []
  | (k, v) :: t =>
      bk <- write k ;;
      bv <- write v ;;
      bt <- write_pairs t ;;
      Ok (bk ++ bv ++ bt)
  end.
End WriteSeq.

(** [b'$%d\r\n' % len(data)] followed by [data + b'\r\n']. *)
Definition bulk (data : bytes) : bytes :=
  36 :: fmt_d (Z.of_nat (length data)) ++ CRLF ++ data ++ CRLF.

(** [_write]: the bytes it appends to [buf]. *)
Fixpoint _write (data : value) : result bytes :=
  match data with
  | VStr s =>
      match utf8_encode s with
      | Some b => Ok (bulk b)
      | None => Raise UnicodeEncodeError
      end
  | VBytes b => Ok (bulk b)
  | VInt n => Ok (58 :: fmt_d n ++ CRLF)
  | VError message =>
      match utf8_encode message with
      | Some b => Ok (45 :: b ++ CRLF)
      | None => Raise UnicodeEncodeError
      end
  | VList l =>
      body <- write_items _write l ;;
      Ok (42 :: fmt_d (Z.of_nat (length l)) ++ CRLF ++ body)
  | VDict d =>
      body <- write_pairs _write d ;;
      Ok (37 :: fmt_d (Z.of_nat (length d)) ++ CRLF ++ body)
  | VNone => Ok (lit "$-1" ++ CRLF)
  end.

(** [write_response]: the response is built in a buffer and sent at once,
    so nothing is sent when [_write] raises. *)
Definition write_response (data : value) : result bytes := _write data.

(** ** Server *)

(** A command handler: the store before, the positional arguments; the
    result or the exception, and the store after. *)
Definition handler := dict -> list value -> result value * dict.

Definition get : handler := fun kv args =>
  match args with
  | [key] =>
      if hashable key then
        (Ok match dict_get key kv with Some v => v | None => VNone end, kv)
      else (Raise TypeError, kv)
  | _ => (Raise TypeError, kv)
  end.

Definition set : handler := fun kv args =>
  match args with
  | [key; value] =>
      if hashable key then (Ok (VInt 1), dict_set key value kv)
      else (Raise TypeError, kv)
  | _ => (Raise TypeError, kv)
  end.

(** [1 if self._kv.pop(key, None) is not None else 0]. *)
Definition delete : handler := fun kv args =>
  match args with
  | [key] =>
      if hashable key then
        let popped :=
          match dict_get key kv with Some v => v | None => VNone end in
        (Ok (VInt match popped with VNone => 0 | _ => 1 end),
         dict_remove key kv)
      else (Raise TypeError, kv)
  | _ => (Raise TypeError, kv)
  end.

Definition flush : handler := fun kv args =>
  match args with
  | [] => let count := Z.of_nat (length kv) in (Ok (VInt count), [])
  | _ => (Raise TypeError, kv)
  end.

(** [[self._kv.get(k) for k in keys]]. *)
Fixpoint mget_items (kv : dict) (keys : list value) : result (list value) :=
  match keys with
  | [] => Ok []
  | k :: t =>
      if hashable k then
        vs <- mget_items kv t ;;
        Ok (match dict_get k kv with Some v => v | None => VNone end :: vs)
      else Raise TypeError
  end.

Definition mget : handler := fun kv keys =>
  (vs <- mget_items kv keys ;; Ok (VList vs), kv).

(** The loop of [mset]: [for k in it: v = next(it); ...]. *)
Fixpoint mset_loop (kv : dict) (count : Z) (items : list value)
  : result value * dict :=
  match items with
  | [] => (Ok (VInt count), kv)
  | [k] => (Raise StopIteration, kv)
  | k :: v :: rest =>
      if hashable k then mset_loop (dict_set k v kv) (count + 1) rest
      else (Raise TypeError, kv)
  end.

Definition mset : handler := fun kv items => mset_loop kv 0 items.

Definition get_commands : list (str * handler) :=
  [ (lit "GET", get); (lit "SET", set); (lit "DELETE", delete);
    (lit "FLUSH", flush); (lit "MGET", mget); (lit "MSET", mset) ].

Fixpoint lookup_command (cmd : str) (commands : list (str * handler))
  : option handler :=
  match commands with
  | [] => None
  | (name, h) :: t => if str_eqb cmd name then Some h else lookup_command cmd t
  end.

(** The end of a session: the loop left on [Disconnect], or an exception
    that nothing catches. *)
Inductive ending :=
| Closed
| Crashed (e : exn)
| Unfinished.

Record outcome := {
  sent : bytes;
  store : dict;
  how : ending
}.

(** The outcome [o] of the rest of a session, after [out] was sent. *)
Definition send_then (out : bytes) (o : outcome) : outcome :=
  {| sent := out ++ sent o; store := store o; how := how o |}.

Section Session.
(** The interpreter's upper-case table for the characters above ASCII. *)
Variable to_upper_full : Z -> list Z.

(** The request as a list: a list as it is, anything else through
    [data.split()], which only [str] and [bytes] have. *)
Definition tokens (data : value) : result (list value) :=
  match data with
  | VList l => Ok l
  | VStr s => Ok (map VStr (str_split s))
  | VBytes b => Ok (map VBytes (bytes_split b))
  | _ => Raise (CommandError (lit "Request must be list or simple string"))
  end.

(** [cmd.decode('utf-8')] when [cmd] is bytes, then [cmd.upper()]. *)
Definition command_name (cmd : value) : result str :=
  match cmd with
  | VBytes b =>
      match utf8_decode b with
      | Some s => Ok (str_upper to_upper_full s)
      | None => Raise UnicodeDecodeError
      end
  | VStr s => Ok (str_upper to_upper_full s)
  | _ => Raise AttributeError
  end.

Definition get_response (kv : dict) (data : value) : result value * dict :=
  match tokens data with
  | Ok [] => (Raise (CommandError (lit "Missing command")), kv)
  | Ok (cmd :: args) =>
      match command_name cmd with
      | Ok cmd =>
          match lookup_command cmd get_commands with
          | None =>
              (Raise (CommandError (lit "Command not found: " ++ cmd)), kv)
          | Some h => h kv args
          end
      | Raise e => (Raise e, kv)
      | OutOfFuel => (OutOfFuel, kv)
      end
  | Raise e => (Raise e, kv)
  | OutOfFuel => (OutOfFuel, kv)
  end.

(** One turn of the loop of [connection_handler] on a decoded request:
    [CommandError] becomes the response, anything else goes through. *)
Definition respond (kv : dict) (data : value) : result bytes * dict :=
  let (r, kv) := get_response kv data in
  let resp :=
    match r with
    | Raise (CommandError msg) => Ok (VError msg)
    | _ => r
    end in
  (resp <- resp ;; write_response resp, kv).

Fixpoint connection_handler (fuel : nat) (kv : dict) (socket_file : bytes)
  : outcome :=
  match fuel with
  | O => {| sent := []; store := kv; how := Unfinished |}
  | S fuel' =>
      match decode socket_file with
      | Raise Disconnect => {| sent := []; store := kv; how := Closed |}
      | Raise e => {| sent := []; store := kv; how := Crashed e |}
      | OutOfFuel => {| sent := []; store := kv; how := Unfinished |}
      | Ok (data, socket_file) =>
          match respond kv data with
          | (Ok out, kv) =>
              send_then out (connection_handler fuel' kv socket_file)
          | (Raise e, kv) => {| sent := []; store := kv; how := Crashed e |}
          | (OutOfFuel, kv) => {| sent := []; store := kv; how := Unfinished |}
          end
      end
  end.

(** The session on the whole input of a peer: every turn reads at least
    the tag byte, so the loop takes at most [length socket_file] turns
    before the stream is empty and the next read disconnects. *)
Definition session (kv : dict) (socket_file : bytes) : outcome :=
  connection_handler (S (length socket_file)) kv socket_file.
End Session.

(** A table for [to_upper_full] that leaves the characters above ASCII as
    they are; it serves where a session is run on ASCII input. *)
Definition unchanged_above_ascii : Z -> list Z := fun c => [c].

(** ** Predicates used in the statements *)

(** A code point that UTF-8 can encode: not negative, not a surrogate, at
    most U+10FFFF. *)
Definition is_scalar (c : Z) : bool :=
  ((0 <=? c) && (c <? 55296)) || ((57344 <=? c) && (c <? 1114112)).

(** Text that survives a line of the protocol: no line feed inside, no
    carriage return at the end. *)
Definition line_safe (s : str) : bool :=
  negb (existsb (Z.eqb 10) s) && negb (last s 0 =? 13).

(** The invariant of a dict: hashable keys, pairwise different. *)
Fixpoint dict_wf (d : dict) : bool :=
  match d with
  | [] => true
  | (k, _) :: t =>
      hashable k && negb (existsb (key_eqb k) (map fst t)) && dict_wf t
  end.

(** The values that come back from the wire as they went. *)
Fixpoint roundtrips (v : value) : bool :=
  match v with
  | VStr s => forallb is_scalar s
  | VBytes b => match utf8_decode b with Some _ => false | None => true end
  | VInt _ => true
  | VError message => forallb is_scalar message && line_safe message
  | VNone => true
  | VList l => forallb roundtrips l
  | VDict d =>
      forallb (fun kv => roundtrips (fst kv) && roundtrips (snd kv)) d
      && dict_wf d
  end.

Definition is_tag (c : Z) : bool :=
  existsb (Z.eqb c) [43; 45; 58; 36; 42; 37].

(** The tags whose handler reads a line and passes it to [int]. *)
Definition reads_integer (c : Z) : bool :=
  existsb (Z.eqb c) [58; 36; 42; 37].

Definition non_numeric (line : bytes) : bool :=
  match py_int (rstrip is_crlf line) with
  | Ok _ => false
  | _ => true
  end.

(** The next frame starts with an unknown tag, or with a tag that needs
    an integer and a line that is not one. *)
Definition malformed (s : bytes) : bool :=
  match s with
  | [] => false
  | c :: t =>
      negb (is_tag c) || (reads_integer c && non_numeric (fst (readline t)))
  end.

(** [kv] after [self._kv[k] = v] for each pair, in order. *)
Definition write_all (kv : dict) (pairs : list (value * value)) : dict :=
  fold_left (fun kv p => dict_set (fst p) (snd p) kv) pairs kv.

(** The pairs of an argument list [k1, v1, k2, v2, ...]; a last key without
    a value is left out. *)
Fixpoint pairs_of (items : list value) : list (value * value) :=
  match items with
  | k :: v :: rest => (k, v) :: pairs_of rest
  | _ => []
  end.

(** The items of a dict as [_write] sends them: key, value, key, ... *)
Definition flatten_pairs (d : list (value * value)) : list value :=
  flat_map (fun kv => [fst kv; snd kv]) d.

(** What the round trip asks of a value: [_write] succeeds and
    [handle_request] reads the value back and stops after it, with any
    fuel above the length of the frame. *)
Definition reads_back (v : value) : Prop :=
  exists b, _write v = Ok b /\
    forall fuel rest, (length b < fuel)%nat ->
      handle_request fuel (b ++ rest) = Ok (v, rest).

(** A decoder that never gives the stream back longer. *)
Definition shrinking (rec : bytes -> result (value * bytes)) : Prop :=
  forall s v s', rec s = Ok (v, s') -> (length s' <= length s)%nat.

(** A decoder that gives back an end of the stream it was given. *)
Definition reads_prefix (rec : bytes -> result (value * bytes)) : Prop :=
  forall s v s', rec s = Ok (v, s') -> exists p, s = p ++ s'.

(** A request without any token: an empty list, or text or bytes made of
    white space only. *)
Definition blank (data : value) : bool :=
  match data with
  | VList [] => true
  | VStr s => forallb is_unicode_space s
  | VBytes b => forallb is_space b
  | _ => false
  end.

(** The requests that are no list and have no [split]. *)
Definition has_no_split (data : value) : bool :=
  match data with
  | VInt _ | VNone | VError _ | VDict _ => true
  | _ => false
  end.

(** A number of arguments that the signature of the handler refuses:
    [get(key)], [set(key, value)], [delete(key)], [flush()]. *)
Definition wrong_arity (name : str) (n : nat) : bool :=
  (str_eqb name (lit "GET") && negb (Nat.eqb n 1))
  || (str_eqb name (lit "SET") && negb (Nat.eqb n 2))
  || (str_eqb name (lit "DELETE") && negb (Nat.eqb n 1))
  || (str_eqb name (lit "FLUSH") && negb (Nat.eqb n 0)).

(** The values [_write] can encode: their text has no lone surrogate. *)
Fixpoint encodable (v : value) : bool :=
  match v with
  | VStr s => forallb is_scalar s
  | VError message => forallb is_scalar message
  | VBytes _ | VInt _ | VNone => true
  | VList l => forallb encodable l
  | VDict d => forallb (fun kv => encodable (fst kv) && encodable (snd kv)) d
  end.

Definition entries_encodable (d : dict) : bool :=
  forallb (fun kv => encodable (fst kv) && encodable (snd kv)) d.

(** What the upper-case table of the interpreter gives for a character of
    a string: characters again, never a lone surrogate. *)
Definition scalar_table (to_upper_full : Z -> list Z) : Prop :=
  forall c, is_scalar c = true -> forallb is_scalar (to_upper_full c) = true.

(** What a handler may return: an encodable value, or an exception that is
    neither a [CommandError] nor one of the encoder. *)
Definition sound_result (r : result value) : Prop :=
  match r with
  | Ok v => encodable v = true
  | Raise e => e <> UnicodeEncodeError /\ forall m, e <> CommandError m
  | OutOfFuel => True
  end.

(** * Proofs *)

(** ** Induction on values *)

Section ValueInd.
Variable P : value -> Prop.
Hypothesis HStr : forall s, P (VStr s).
Hypothesis HBytes : forall b, P (VBytes b).
Hypothesis HInt : forall n, P (VInt n).
Hypothesis HError : forall m, P (VError m).
Hypothesis HNone : P VNone.
Hypothesis HList : forall l, Forall P l -> P (VList l).
Hypothesis HDict :
  forall d, Forall (fun kv => P (fst kv) /\ P (snd kv)) d -> P (VDict d).

Fixpoint value_ind (v : value) : P v :=
  match v with
  | VStr s => HStr s
  | VBytes b => HBytes b
  | VInt n => HInt n
  | VError m => HError m
  | VNone => HNone
  | VList l =>
      HList l
        ((fix all (l : list value) : Forall P l :=
            match l with
            | [] => Forall_nil _
            | x :: t => Forall_cons x (value_ind x) (all t)
            end) l)
  | VDict d =>
      HDict d
        ((fix all (d : list (value * value))
            : Forall (fun kv => P (fst kv) /\ P (snd kv)) d :=
            match d with
            | [] => Forall_nil _
            | (k, v) :: t =>
                Forall_cons (k, v) (conj (value_ind k) (value_ind v)) (all t)
            end) d)
  end.
End ValueInd.

(** ** Lists of bytes *)

Lemma str_eqb_eq (a b : list Z) : str_eqb a b = true <-> a = b.
Proof.
  revert b; induction a as [|x a IH]; intros [|y b]; simpl;
    try (split; [discriminate | congruence]); try tauto.
  rewrite andb_true_iff, Z.eqb_eq, IH.
  split; [intros [-> ->]; reflexivity | intros H; inversion H; auto].
Qed.

Lemma str_eqb_refl (a : list Z) : str_eqb a a = true.
Proof. apply str_eqb_eq; reflexivity. Qed.

Lemma key_eqb_eq (a b : value) :
  hashable a = true -> (key_eqb a b = true <-> a = b).
Proof.
  destruct a, b; simpl; intros Ha; try discriminate;
    try (split; [discriminate | congruence]);
    try (rewrite str_eqb_eq; split; congruence);
    try (rewrite Z.eqb_eq; split; congruence).
  tauto.
Qed.

Lemma key_eqb_refl (a : value) : hashable a = true -> key_eqb a a = true.
Proof. intros H; apply key_eqb_eq; auto. Qed.

Lemma key_eqb_sym (a b : value) : key_eqb a b = key_eqb b a.
Proof.
  assert (S : forall s t, str_eqb s t = str_eqb t s).
  { intros s t. destruct (str_eqb s t) eqn:E1, (str_eqb t s) eqn:E2; auto.
    - apply str_eqb_eq in E1; subst. rewrite str_eqb_refl in E2; discriminate.
    - apply str_eqb_eq in E2; subst. rewrite str_eqb_refl in E1; discriminate. }
  destruct a, b; simpl; auto using Z.eqb_sym.
Qed.

Lemma rstrip_app_stop (p : Z -> bool) (l : bytes) (c : Z) :
  p c = false -> rstrip p (l ++ [c]) = l ++ [c].
Proof.
  intros Hc. induction l as [|x l IH]; simpl.
  - rewrite Hc; reflexivity.
  - rewrite IH. destruct (l ++ [c]) eqn:E; [destruct l; discriminate|reflexivity].
Qed.

Lemma rstrip_app_drop (p : Z -> bool) (l : bytes) (c : Z) :
  p c = true -> rstrip p (l ++ [c]) = rstrip p l.
Proof.
  intros Hc. induction l as [|x l IH]; simpl.
  - rewrite Hc; reflexivity.
  - rewrite IH; reflexivity.
Qed.

Lemma rstrip_crlf_line (l : bytes) :
  rstrip is_crlf (l ++ CRLF) = rstrip is_crlf l.
Proof.
  unfold CRLF. change [13; 10] with ([13] ++ [10]). rewrite app_assoc.
  rewrite rstrip_app_drop by reflexivity.
  apply rstrip_app_drop; reflexivity.
Qed.

(** A list that is empty or ends with a byte outside [p] is left as it is. *)
Lemma rstrip_fixed (p : Z -> bool) (l : bytes) :
  l = [] \/ p (last l 0) = false -> rstrip p l = l.
Proof.
  induction l as [|c l _] using rev_ind; [reflexivity|].
  intros [H|H].
  - destruct l; discriminate.
  - rewrite last_last in H. apply rstrip_app_stop; exact H.
Qed.

Lemma readline_line (l rest : bytes) :
  existsb (Z.eqb 10) l = false ->
  readline (l ++ CRLF ++ rest) = (l ++ CRLF, rest).
Proof.
  induction l as [|c l IH]; intros Hl.
  - reflexivity.
  - cbn [existsb] in Hl. apply orb_false_iff in Hl as [Hc Hl].
    rewrite Z.eqb_sym in Hc. cbn [app readline].
    rewrite Hc, (IH Hl). reflexivity.
Qed.

(** ** Integers in decimal *)

Lemma digits_of_spec (f : nat) : forall n acc,
  0 <= n < 10 ^ Z.of_nat (S f) ->
  exists ds,
    digits_of (S f) n acc = ds ++ acc /\ ds <> [] /\
    Forall (fun c => is_digit c = true) ds /\
    forall a rest,
      parse_digits a false (ds ++ rest)
      = parse_digits (a * 10 ^ Z.of_nat (length ds) + n) false rest.
Proof.
  assert (D : forall n, is_digit (48 + n mod 10) = true).
  { intros n. unfold is_digit.
    pose proof (Z.mod_pos_bound n 10 ltac:(lia)).
    apply andb_true_iff; split; apply Z.leb_le; lia. }
  assert (Small : forall n acc, 0 <= n < 10 ->
    exists ds, (48 + n mod 10) :: acc = ds ++ acc /\ ds <> [] /\
      Forall (fun c => is_digit c = true) ds /\
      forall a rest, parse_digits a false (ds ++ rest)
        = parse_digits (a * 10 ^ Z.of_nat (length ds) + n) false rest).
  { intros n acc Hn. exists [48 + n mod 10].
    split; [reflexivity|]. split; [discriminate|].
    split; [constructor; auto|].
    intros a rest. cbn [app parse_digits length]. rewrite D.
    rewrite Z.mod_small by lia. f_equal. change (Z.of_nat 1) with 1. lia. }
  induction f as [|f IH]; intros n acc Hn.
  - cbn [digits_of]. replace (n <? 10) with true
      by (symmetry; apply Z.ltb_lt; change (10 ^ Z.of_nat 1) with 10 in Hn; lia).
    apply Small. change (10 ^ Z.of_nat 1) with 10 in Hn; lia.
  - change (digits_of (S (S f)) n acc)
      with (if n <? 10 then (48 + n mod 10) :: acc
            else digits_of (S f) (n / 10) ((48 + n mod 10) :: acc)).
    destruct (Z.ltb_spec n 10) as [Hlt|Hge].
    + apply Small; lia.
    + destruct (IH (n / 10) ((48 + n mod 10) :: acc)) as (ds & E & Hne & Hd & Hp).
      { split; [apply Z.div_pos; lia|].
        apply Z.div_lt_upper_bound; [lia|].
        replace (Z.of_nat (S (S f))) with (Z.succ (Z.of_nat (S f))) in Hn by lia.
        rewrite Z.pow_succ_r in Hn by lia. lia. }
      exists (ds ++ [48 + n mod 10]).
      split; [rewrite E, <- app_assoc; reflexivity|].
      split; [destruct ds; discriminate|].
      split; [apply Forall_app; split; [exact Hd|constructor; auto]|].
      intros a rest. rewrite <- app_assoc. cbn [app].
      rewrite Hp. cbn [parse_digits]. rewrite D. f_equal.
      rewrite length_app. cbn [length].
      replace (Z.of_nat (length ds + 1)) with (Z.succ (Z.of_nat (length ds))) by lia.
      rewrite Z.pow_succ_r by lia.
      pose proof (Z.div_mod n 10 ltac:(lia)). lia.
Qed.

Lemma fmt_nat_fuel (n : Z) :
  0 <= n -> n < 10 ^ Z.of_nat (S (Z.to_nat (Z.log2 n))).
Proof.
  intros Hn.
  replace (Z.of_nat (S (Z.to_nat (Z.log2 n)))) with (Z.succ (Z.log2 n))
    by (pose proof (Z.log2_nonneg n); lia).
  destruct (Z.eq_dec n 0) as [->|Hnz]; [reflexivity|].
  pose proof (Z.log2_spec n ltac:(lia)) as [_ H].
  pose proof (Z.log2_nonneg n).
  assert (2 ^ Z.succ (Z.log2 n) <= 10 ^ Z.succ (Z.log2 n))
    by (apply Z.pow_le_mono_l; lia).
  lia.
Qed.

Lemma fmt_nat_spec (n : Z) :
  0 <= n ->
  exists c ds,
    fmt_nat n = c :: ds /\ Forall (fun c => is_digit c = true) (c :: ds) /\
    parse_digits 0 false (c :: ds) = Some n.
Proof.
  intros Hn. unfold fmt_nat.
  destruct (digits_of_spec (Z.to_nat (Z.log2 n)) n [])
    as (ds & E & Hne & Hd & Hp); [split; [lia|apply fmt_nat_fuel; lia]|].
  rewrite app_nil_r in E. destruct ds as [|c ds]; [congruence|].
  exists c, ds. repeat split; auto.
  specialize (Hp 0 []). rewrite app_nil_r in Hp. rewrite Hp. reflexivity.
Qed.

Lemma Forall_last {A} (P : A -> Prop) (l : list A) (d : A) :
  Forall P l -> l <> [] -> P (last l d).
Proof.
  induction l as [|x l _] using rev_ind; [congruence|].
  intros H _. rewrite last_last. apply Forall_app in H as [_ H].
  inversion H; auto.
Qed.

Lemma digit_facts (c : Z) :
  is_digit c = true ->
  is_space c = false /\ is_crlf c = false /\ (10 =? c) = false /\
  (c =? 45) = false /\ (c =? 43) = false.
Proof.
  unfold is_digit, is_space, is_crlf. intros H.
  apply andb_true_iff in H as [H1 H2]. apply Z.leb_le in H1, H2.
  repeat split;
    repeat (apply orb_false_iff; split);
    try (apply Z.eqb_neq; lia).
  apply andb_false_iff; right; apply Z.leb_gt; lia.
Qed.

(** [int(b'%d' % n) == n]. *)
Lemma py_int_fmt_d (n : Z) : py_int (fmt_d n) = Ok n.
Proof.
  assert (K : forall m, 0 <= m ->
    exists c ds, fmt_nat m = c :: ds /\ is_digit c = true /\
      rstrip is_space (c :: ds) = c :: ds /\
      parse_digits 0 false (c :: ds) = Some m).
  { intros m Hm. destruct (fmt_nat_spec m Hm) as (c & ds & E & Hd & Hp).
    exists c, ds. repeat split; auto.
    - inversion Hd; auto.
    - apply rstrip_fixed. right.
      apply (Forall_last (fun c => is_digit c = true)) with (d := 0) in Hd;
        [|discriminate].
      apply digit_facts in Hd. tauto. }
  unfold fmt_d. destruct (Z.ltb_spec n 0) as [Hneg|Hpos].
  - destruct (K (- n) ltac:(lia)) as (c & ds & E & Hc & Hr & Hp).
    rewrite E. unfold py_int.
    change (lstrip is_space (45 :: c :: ds)) with (45 :: c :: ds).
    assert (R : rstrip is_space (45 :: c :: ds) = 45 :: c :: ds).
    { change (rstrip is_space (45 :: c :: ds))
        with (match rstrip is_space (c :: ds) with
              | [] => if is_space 45 then [] else [45]
              | t' => 45 :: t' end).
      rewrite Hr. reflexivity. }
    rewrite R. cbn [snd fst]. change (45 =? 45) with true. cbn [snd fst].
    rewrite Hc, Hp. f_equal. lia.
  - destruct (K n Hpos) as (c & ds & E & Hc & Hr & Hp).
    rewrite E. unfold py_int.
    destruct (digit_facts c Hc) as (Hs & _ & _ & H45 & H43).
    cbn [lstrip]. rewrite Hs, Hr, H45, H43. cbn [snd fst].
    rewrite Hc, Hp. reflexivity.
Qed.

Lemma fmt_d_chars (n : Z) :
  fmt_d n <> [] /\ existsb (Z.eqb 10) (fmt_d n) = false /\
  is_crlf (last (fmt_d n) 0) = false.
Proof.
  assert (K : forall m, 0 <= m ->
    fmt_nat m <> [] /\ existsb (Z.eqb 10) (fmt_nat m) = false /\
    is_crlf (last (fmt_nat m) 0) = false /\
    last (45 :: fmt_nat m) 0 = last (fmt_nat m) 0).
  { intros m Hm. destruct (fmt_nat_spec m Hm) as (c & ds & E & Hd & _).
    rewrite E. split; [discriminate|]. split; [|split].
    - clear E. induction Hd as [|x l Hx _ IH]; [reflexivity|].
      cbn [existsb]. apply digit_facts in Hx as (_ & _ & -> & _). exact IH.
    - apply (Forall_last (fun c => is_digit c = true)) with (d := 0) in Hd;
        [|discriminate].
      apply digit_facts in Hd. tauto.
    - reflexivity. }
  unfold fmt_d. destruct (Z.ltb_spec n 0) as [Hneg|Hpos].
  - destruct (K (- n) ltac:(lia)) as (Hne & Hlf & Hlast & E).
    split; [discriminate|]. split; [exact Hlf|]. rewrite E. exact Hlast.
  - destruct (K n Hpos) as (Hne & Hlf & Hlast & _). auto.
Qed.

(** A line [b'%d\r\n' % n] is read back as [n]. *)
Lemma read_int_line (n : Z) (rest : bytes) :
  readline (fmt_d n ++ CRLF ++ rest) = (fmt_d n ++ CRLF, rest) /\
  py_int (rstrip is_crlf (fmt_d n ++ CRLF)) = Ok n.
Proof.
  destruct (fmt_d_chars n) as (Hne & Hlf & Hlast).
  split; [apply readline_line; exact Hlf|].
  rewrite rstrip_crlf_line, rstrip_fixed by (right; exact Hlast).
  apply py_int_fmt_d.
Qed.

(** ** UTF-8 *)

(** Settle the comparisons of the goal from the hypotheses. *)
Ltac zbool :=
  repeat match goal with
  | |- context [?a <? ?b] => destruct (Z.ltb_spec a b); try (exfalso; lia)
  | |- context [?a <=? ?b] => destruct (Z.leb_spec a b); try (exfalso; lia)
  | |- context [?a =? ?b] => destruct (Z.eqb_spec a b); try (exfalso; lia)
  end.

(** The shape of an encoded character: the digits of the code point in
    base 64 under the marks of the leading and the following bytes. *)
Lemma utf8_encode_char_cases (c : Z) (b : bytes) :
  utf8_encode_char c = Some b ->
  (0 <= c < 128 /\ b = [c]) \/
  (exists q r, c = 64 * q + r /\ 0 <= r < 64 /\ 2 <= q < 32 /\
     b = [192 + q; 128 + r]) \/
  (exists q r2 r1, c = 4096 * q + 64 * r2 + r1 /\ 0 <= r1 < 64 /\
     0 <= r2 < 64 /\ 0 <= q < 16 /\ 2048 <= c /\ ~ 55296 <= c < 57344 /\
     b = [224 + q; 128 + r2; 128 + r1]) \/
  (exists q r3 r2 r1, c = 262144 * q + 4096 * r3 + 64 * r2 + r1 /\
     0 <= r1 < 64 /\ 0 <= r2 < 64 /\ 0 <= r3 < 64 /\ 0 <= q < 5 /\
     65536 <= c < 1114112 /\
     b = [240 + q; 128 + r3; 128 + r2; 128 + r1]).
Proof.
  unfold utf8_encode_char, is_surrogate.
  pose proof (Z.div_mod c 64 ltac:(lia)) as D1.
  pose proof (Z.mod_pos_bound c 64 ltac:(lia)) as B1.
  pose proof (Z.div_mod (c / 64) 64 ltac:(lia)) as D2.
  pose proof (Z.mod_pos_bound (c / 64) 64 ltac:(lia)) as B2.
  pose proof (Z.div_mod (c / 64 / 64) 64 ltac:(lia)) as D3.
  pose proof (Z.mod_pos_bound (c / 64 / 64) 64 ltac:(lia)) as B3.
  replace (c / 4096) with (c / 64 / 64)
    by (rewrite Z.div_div by lia; reflexivity).
  replace (c / 262144) with (c / 64 / 64 / 64)
    by (rewrite !Z.div_div by lia; reflexivity).
  set (q1 := c / 64) in *. set (r1 := c mod 64) in *.
  set (r2 := q1 mod 64) in *. set (q2 := q1 / 64) in *.
  set (r3 := q2 mod 64) in *. set (q3 := q2 / 64) in *.
  clearbody q1 r1 q2 r2 q3 r3.
  destruct (Z.ltb_spec c 0); [discriminate|].
  destruct (Z.ltb_spec c 128).
  { intros E; injection E as <-. left. split; [lia|reflexivity]. }
  destruct (Z.ltb_spec c 2048).
  { intros E; injection E as <-. right; left.
    exists q1, r1. repeat split; lia. }
  destruct (Z.ltb_spec c 65536).
  { destruct (Z.leb_spec 55296 c); [destruct (Z.ltb_spec c 57344)|];
      cbn [andb]; try discriminate; intros E; injection E as <-;
      right; right; left; exists q2, r2, r1; repeat split; lia. }
  destruct (Z.ltb_spec c 1114112); [|discriminate].
  intros E; injection E as <-. right; right; right.
  exists q3, r3, r2, r1. repeat split; lia.
Qed.

Lemma utf8_decode_encode_char (c : Z) (b rest : bytes) :
  utf8_encode_char c = Some b ->
  utf8_decode (b ++ rest) = option_map (cons c) (utf8_decode rest).
Proof.
  intros E. apply utf8_encode_char_cases in E.
  destruct E as [[Hc ->]|[(q & r & -> & Hr & Hq & ->)
    |[(q & r2 & r1 & Hc & H1 & H2 & Hq & Hlo & Hs & ->)
     |(q & r3 & r2 & r1 & Hc & H1 & H2 & H3 & Hq & Hr & ->)]]];
    cbn [app utf8_decode]; unfold is_cont, is_surrogate;
    zbool; cbn [andb negb]; try reflexivity; do 2 f_equal; lia.
Qed.

Lemma utf8_decode_encode (s : str) (b : bytes) :
  utf8_encode s = Some b -> utf8_decode b = Some s.
Proof.
  revert b; induction s as [|c s IH]; intros b; cbn [utf8_encode].
  - intros E; injection E as <-; reflexivity.
  - destruct (utf8_encode_char c) as [bc|] eqn:Ec; [|discriminate].
    destruct (utf8_encode s) as [bs|]; [|discriminate].
    intros E; injection E as <-.
    rewrite (utf8_decode_encode_char c bc bs Ec), (IH bs eq_refl).
    reflexivity.
Qed.

Lemma utf8_encode_char_scalar (c : Z) :
  is_scalar c = true -> exists b, utf8_encode_char c = Some b.
Proof.
  unfold is_scalar, utf8_encode_char, is_surrogate. intros H.
  apply orb_true_iff in H as [H|H]; apply andb_true_iff in H as [H1 H2];
    apply Z.leb_le in H1; apply Z.ltb_lt in H2;
    zbool; cbn [andb]; eauto.
Qed.

Lemma utf8_encode_scalar (s : str) :
  forallb is_scalar s = true -> exists b, utf8_encode s = Some b.
Proof.
  induction s as [|c s IH]; cbn [forallb utf8_encode]; [eauto|].
  intros H. apply andb_true_iff in H as [Hc Hs].
  destruct (utf8_encode_char_scalar c Hc) as (bc & ->).
  destruct (IH Hs) as (bs & ->). eauto.
Qed.

(** A character is one byte below 128, or bytes that are all above. *)
Lemma utf8_encode_char_bytes (c : Z) (b : bytes) :
  utf8_encode_char c = Some b ->
  b <> [] /\
  existsb (Z.eqb 10) b = (10 =? c) /\
  is_crlf (last b 0) = is_crlf c.
Proof.
  intros E. apply utf8_encode_char_cases in E.
  destruct E as [[Hc ->]|[(q & r & -> & Hr & Hq & ->)
    |[(q & r2 & r1 & Hc & H1 & H2 & Hq & Hlo & Hs & ->)
     |(q & r3 & r2 & r1 & Hc & H1 & H2 & H3 & Hq & Hr & ->)]]];
    (split; [discriminate|]); cbn [existsb last]; unfold is_crlf;
    zbool; auto.
Qed.

Lemma last_app_r {A} (l1 l2 : list A) (d : A) :
  l2 <> [] -> last (l1 ++ l2) d = last l2 d.
Proof.
  intros H. induction l1 as [|x l1 IH]; [reflexivity|].
  cbn [app]. rewrite <- IH.
  destruct (l1 ++ l2) eqn:E; [|reflexivity].
  apply app_eq_nil in E as [_ E]. congruence.
Qed.

Lemma utf8_encode_line (s : str) (b : bytes) :
  utf8_encode s = Some b ->
  existsb (Z.eqb 10) b = existsb (Z.eqb 10) s /\
  is_crlf (last b 0) = is_crlf (last s 0) /\
  (b = [] -> s = []).
Proof.
  revert b; induction s as [|c s IH]; intros b; cbn [utf8_encode].
  - intros E; injection E as <-. auto.
  - destruct (utf8_encode_char c) as [bc|] eqn:Ec; [|discriminate].
    destruct (utf8_encode s) as [bs|] eqn:Es; [|discriminate].
    intros E; injection E as <-.
    destruct (utf8_encode_char_bytes c bc Ec) as (Hne & Hlf & Hlast).
    destruct (IH bs eq_refl) as (IH1 & IH2 & IH3).
    split; [|split].
    + rewrite existsb_app, Hlf, IH1. reflexivity.
    + destruct s as [|y s].
      * cbn in Es. injection Es as <-. rewrite app_nil_r. exact Hlast.
      * destruct bs as [|x bs]; [discriminate (IH3 eq_refl)|].
        rewrite last_app_r by discriminate. exact IH2.
    + intros E. destruct bc; [congruence|discriminate].
Qed.

(** ** Dicts *)

Lemma every_other_cons {A} (x : A) (l : list A) :
  every_other (x :: l) = x :: every_other (tl l).
Proof. destruct l; reflexivity. Qed.

(** [zip(items[0::2], items[1::2])] pairs the items two by two. *)
Lemma zip_every_other (items : list value) :
  combine (every_other items) (every_other (tl items)) = pairs_of items.
Proof.
  assert (H : forall n (l : list value), (length l <= n)%nat ->
    combine (every_other l) (every_other (tl l)) = pairs_of l).
  { induction n as [|n IH]; intros [|k [|v l]] Hl; try reflexivity;
      cbn [length] in Hl; try lia.
    cbn [tl pairs_of]. rewrite (every_other_cons v l).
    cbn [every_other combine]. f_equal. apply IH. lia. }
  apply (H (length items)). lia.
Qed.

Lemma pairs_of_flatten (d : list (value * value)) :
  pairs_of (flatten_pairs d) = d.
Proof.
  induction d as [|[k v] d IH]; [reflexivity|].
  cbn [flatten_pairs flat_map app fst snd pairs_of].
  f_equal. exact IH.
Qed.

Lemma dict_set_fresh (k v : value) (d : dict) :
  existsb (key_eqb k) (map fst d) = false -> dict_set k v d = d ++ [(k, v)].
Proof.
  induction d as [|[k' v'] d IH]; cbn [map fst existsb dict_set app];
    [reflexivity|].
  intros H. apply orb_false_iff in H as [-> H]. rewrite (IH H). reflexivity.
Qed.

Lemma dict_wf_middle (acc t : dict) (k v : value) :
  dict_wf (acc ++ (k, v) :: t) = true ->
  hashable k = true /\ existsb (key_eqb k) (map fst acc) = false.
Proof.
  induction acc as [|[k0 v0] acc IH]; cbn [app dict_wf map fst existsb].
  - intros H. apply andb_true_iff in H as [H _].
    apply andb_true_iff in H as [H _]. auto.
  - intros H. apply andb_true_iff in H as [H Hwf].
    apply andb_true_iff in H as [_ Hk0]. apply negb_true_iff in Hk0.
    destruct (IH Hwf) as [Hh Hk]. split; [exact Hh|].
    rewrite Hk, orb_false_r.
    rewrite map_app, existsb_app in Hk0. cbn [map fst existsb] in Hk0.
    apply orb_false_iff in Hk0 as [_ Hk0].
    apply orb_false_iff in Hk0 as [Hk0 _].
    rewrite key_eqb_sym. exact Hk0.
Qed.

(** Pairs with hashable, pairwise different keys make the dict that lists
    them in their order. *)
Lemma dict_of_pairs_wf (d acc : dict) :
  dict_wf (acc ++ d) = true -> dict_of_pairs acc d = Ok (acc ++ d).
Proof.
  revert acc; induction d as [|[k v] d IH]; intros acc H.
  - rewrite app_nil_r. reflexivity.
  - destruct (dict_wf_middle acc d k v H) as [Hh Hk].
    cbn [dict_of_pairs]. rewrite Hh, (dict_set_fresh k v acc Hk).
    rewrite IH; rewrite <- app_assoc; [reflexivity|exact H].
Qed.

(** ** Decoding what [_write] sends *)

Lemma existsb_last (p : Z -> bool) (l : list Z) (d : Z) :
  existsb p l = false -> l <> [] -> p (last l d) = false.
Proof.
  induction l as [|c l _] using rev_ind; [congruence|].
  intros H _. rewrite last_last. rewrite existsb_app in H.
  apply orb_false_iff in H as [_ H]. cbn [existsb] in H.
  apply orb_false_iff in H as [H _]. exact H.
Qed.

(** The two bytes after the payload are dropped whatever they are. *)
Lemma handle_string_payload (data rest : bytes) (x y : Z) :
  handle_string
    (fmt_d (Z.of_nat (length data)) ++ CRLF ++ data ++ [x; y] ++ rest)
  = Ok (decode_or_raw data, rest).
Proof.
  unfold handle_string.
  destruct (read_int_line (Z.of_nat (length data)) (data ++ [x; y] ++ rest))
    as [-> Hint].
  rewrite Hint. cbn [bind].
  replace (Z.of_nat (length data) =? -1) with false
    by (symmetry; apply Z.eqb_neq; lia).
  unfold read.
  replace (Z.of_nat (length data) + 2 <? -1) with false
    by (symmetry; apply Z.ltb_ge; lia).
  replace (Z.of_nat (length data) + 2 =? -1) with false
    by (symmetry; apply Z.eqb_neq; lia).
  replace (Z.to_nat (Z.of_nat (length data) + 2)) with (length (data ++ [x; y]))
    by (rewrite length_app; cbn [length]; lia).
  rewrite (app_assoc data [x; y] rest).
  rewrite firstn_app, skipn_app, Nat.sub_diag, firstn_all, skipn_all.
  cbn [bind firstn skipn app]. rewrite app_nil_r.
  unfold drop_last2. rewrite length_app. cbn [length].
  replace (length data + 2 - 2)%nat with (length data + 0)%nat by lia.
  rewrite firstn_app_2. cbn [firstn]. rewrite app_nil_r. reflexivity.
Qed.

Lemma handle_integer_line (n : Z) (rest : bytes) :
  handle_integer (fmt_d n ++ CRLF ++ rest) = Ok (VInt n, rest).
Proof.
  unfold handle_integer. destruct (read_int_line n rest) as [-> ->].
  reflexivity.
Qed.

Lemma line_safe_bytes (s : str) (b : bytes) :
  utf8_encode s = Some b -> line_safe s = true ->
  existsb (Z.eqb 10) b = false /\ rstrip is_crlf b = b.
Proof.
  intros E H. destruct (utf8_encode_line s b E) as (Hlf & Hlast & Hnil).
  unfold line_safe in H. apply andb_true_iff in H as [H10 H13].
  apply negb_true_iff in H10, H13.
  split; [rewrite Hlf; exact H10|].
  apply rstrip_fixed. destruct s as [|c s]; [left|right].
  - cbn in E. congruence.
  - rewrite Hlast. unfold is_crlf. rewrite H13. cbn [orb].
    rewrite Z.eqb_sym.
    apply (existsb_last (Z.eqb 10) (c :: s) 0 H10). discriminate.
Qed.

Lemma handle_error_line (s : str) (b rest : bytes) :
  utf8_encode s = Some b -> line_safe s = true ->
  handle_error (b ++ CRLF ++ rest) = Ok (VError s, rest).
Proof.
  intros E H. destruct (line_safe_bytes s b E H) as [Hlf Hr].
  unfold handle_error. rewrite (readline_line b rest Hlf).
  rewrite rstrip_crlf_line, Hr, (utf8_decode_encode s b E). reflexivity.
Qed.

(** ** Round trip *)

Lemma read_items_written (l : list value) :
  Forall (fun v => roundtrips v = true -> reads_back v) l ->
  forallb roundtrips l = true ->
  exists body, write_items _write l = Ok body /\
    forall fuel rest, (length body < fuel)%nat ->
      read_items (handle_request fuel) (length l) (body ++ rest)
      = Ok (l, rest).
Proof.
  induction 1 as [|v l Hv _ IH]; cbn [forallb write_items]; intros Hr.
  - exists []. split; [reflexivity|]. reflexivity.
  - apply andb_true_iff in Hr as [Hrv Hrl].
    destruct (Hv Hrv) as (b & -> & Hb). destruct (IH Hrl) as (bt & -> & Hbt).
    exists (b ++ bt). split; [reflexivity|].
    intros fuel rest Hf. rewrite length_app in Hf.
    cbn [length read_items]. rewrite <- app_assoc, Hb by lia.
    cbn [bind]. rewrite Hbt by lia. reflexivity.
Qed.

Lemma read_pairs_written (d : list (value * value)) :
  Forall (fun kv => (roundtrips (fst kv) = true -> reads_back (fst kv)) /\
                    (roundtrips (snd kv) = true -> reads_back (snd kv))) d ->
  forallb (fun kv => roundtrips (fst kv) && roundtrips (snd kv)) d = true ->
  exists body, write_pairs _write d = Ok body /\
    forall fuel rest, (length body < fuel)%nat ->
      read_items (handle_request fuel) (length (flatten_pairs d))
        (body ++ rest)
      = Ok (flatten_pairs d, rest).
Proof.
  induction 1 as [|[k v] d [Hk Hv] _ IH]; cbn [forallb write_pairs fst snd];
    intros Hr.
  - exists []. split; [reflexivity|]. reflexivity.
  - cbn [fst snd] in Hk, Hv. apply andb_true_iff in Hr as [Hkv Hrd].
    apply andb_true_iff in Hkv as [Hrk Hrv].
    destruct (Hk Hrk) as (bk & -> & Hbk). destruct (Hv Hrv) as (bv & -> & Hbv).
    destruct (IH Hrd) as (bt & -> & Hbt).
    exists (bk ++ bv ++ bt). split; [reflexivity|].
    intros fuel rest Hf. rewrite !length_app in Hf.
    cbn [flatten_pairs flat_map app fst snd length read_items].
    rewrite <- !app_assoc, Hbk by lia. cbn [bind].
    rewrite Hbv by lia. cbn [bind].
    fold (flatten_pairs d). rewrite Hbt by lia. reflexivity.
Qed.

Lemma length_flatten_pairs (d : list (value * value)) :
  length (flatten_pairs d) = Z.to_nat (Z.of_nat (length d) * 2).
Proof.
  induction d as [|kv d IH]; [reflexivity|].
  cbn [flatten_pairs flat_map app length]. fold (flatten_pairs d).
  rewrite IH. lia.
Qed.

Lemma reads_back_all (v : value) : roundtrips v = true -> reads_back v.
Proof.
  induction v as [s|b|n|m| |l IH|d IH] using value_ind; cbn [roundtrips];
    intros Hr.
  - (* str *)
    destruct (utf8_encode_scalar s Hr) as (b & E).
    exists (bulk b). cbn [_write]. rewrite E. split; [reflexivity|].
    intros [|f] rest Hf; [lia|]. unfold bulk. cbn [app].
    rewrite <- !app_assoc.
    change (handle_request (S f) (36 :: ?s)) with (handle_string s).
    pose proof (handle_string_payload b rest 13 10) as P.
    change [13; 10] with CRLF in P. rewrite P.
    unfold decode_or_raw. rewrite (utf8_decode_encode s b E). reflexivity.
  - (* bytes *)
    exists (bulk b). split; [reflexivity|].
    intros [|f] rest Hf; [lia|]. unfold bulk. cbn [app].
    rewrite <- !app_assoc.
    change (handle_request (S f) (36 :: ?s)) with (handle_string s).
    pose proof (handle_string_payload b rest 13 10) as P.
    change [13; 10] with CRLF in P. rewrite P.
    unfold decode_or_raw. destruct (utf8_decode b); [discriminate|reflexivity].
  - (* int *)
    exists (58 :: fmt_d n ++ CRLF). split; [reflexivity|].
    intros [|f] rest Hf; [lia|]. cbn [app]. rewrite <- !app_assoc.
    change (handle_request (S f) (58 :: ?s)) with (handle_integer s).
    apply handle_integer_line.
  - (* Error *)
    apply andb_true_iff in Hr as [Hs Hl].
    destruct (utf8_encode_scalar m Hs) as (b & E).
    exists (45 :: b ++ CRLF). cbn [_write]. rewrite E. split; [reflexivity|].
    intros [|f] rest Hf; [lia|]. cbn [app]. rewrite <- !app_assoc.
    change (handle_request (S f) (45 :: ?s)) with (handle_error s).
    apply handle_error_line; assumption.
  - (* None *)
    exists (lit "$-1" ++ CRLF). split; [reflexivity|].
    intros [|f] rest Hf; [lia|].
    change ((lit "$-1" ++ CRLF) ++ rest) with (36 :: fmt_d (-1) ++ CRLF ++ rest).
    change (handle_request (S f) (36 :: ?s)) with (handle_string s).
    unfold handle_string. destruct (read_int_line (-1) rest) as [-> ->].
    reflexivity.
  - (* list *)
    destruct (read_items_written l IH Hr) as (body & E & Hbody).
    exists (42 :: fmt_d (Z.of_nat (length l)) ++ CRLF ++ body).
    cbn [_write]. rewrite E. split; [reflexivity|].
    intros [|f] rest Hf; [lia|]. cbn [app]. rewrite <- !app_assoc.
    change (handle_request (S f) (42 :: ?s))
      with (handle_array (handle_request f) s).
    unfold handle_array.
    destruct (read_int_line (Z.of_nat (length l)) (body ++ rest)) as [-> ->].
    cbn [bind]. rewrite Nat2Z.id.
    cbn [length] in Hf. rewrite !length_app in Hf.
    rewrite Hbody by lia. reflexivity.
  - (* dict *)
    apply andb_true_iff in Hr as [Hr Hwf].
    destruct (read_pairs_written d IH Hr) as (body & E & Hbody).
    exists (37 :: fmt_d (Z.of_nat (length d)) ++ CRLF ++ body).
    cbn [_write]. rewrite E. split; [reflexivity|].
    intros [|f] rest Hf; [lia|]. cbn [app]. rewrite <- !app_assoc.
    change (handle_request (S f) (37 :: ?s))
      with (handle_dict (handle_request f) s).
    unfold handle_dict.
    destruct (read_int_line (Z.of_nat (length d)) (body ++ rest)) as [-> ->].
    cbn [bind]. rewrite <- length_flatten_pairs.
    cbn [length] in Hf. rewrite !length_app in Hf.
    rewrite Hbody by lia. cbn [bind].
    rewrite zip_every_other, pairs_of_flatten.
    rewrite (dict_of_pairs_wf d []) by exact Hwf. reflexivity.
Qed.

(** C1 (as amended).  A value is read back as it was written,
    [decode(encode(v)) == v], whenever: its text is made of code points
    that UTF-8 encodes (no lone surrogate); its bytes payloads are not
    valid UTF-8 (valid ones come back as text); its error messages hold no
    line feed and do not end with a carriage return; this holds of the
    items of its lists and of the keys and values of its dicts.  The
    decoder consumes the whole frame. *)
Theorem roundtrip_decode_encode (v : value) :
  roundtrips v = true ->
  exists b, _write v = Ok b /\ decode b = Ok (v, []).
Proof.
  intros Hr. destruct (reads_back_all v Hr) as (b & E & Hb).
  exists b. split; [exact E|].
  unfold decode. specialize (Hb (S (length b)) [] (Nat.lt_succ_diag_r _)).
  rewrite app_nil_r in Hb. exact Hb.
Qed.

Lemma roundtrip_decode_encode_witness :
  let v := VList [VStr (lit "SET"); VBytes [255; 254]; VInt (-42); VNone;
                  VError (lit "oops");
                  VDict [(VStr (lit "k"), VList []); (VInt 7, VNone)]] in
  roundtrips v = true /\ exists b, _write v = Ok b /\ decode b = Ok (v, []).
Proof.
  split; [reflexivity|].
  apply roundtrip_decode_encode. reflexivity.
Defined.

(** C1 fails as stated: an error message with a line feed is cut at the
    line feed, one that ends with a carriage return loses it, a bytes
    payload that is valid UTF-8 comes back as text, and text with a lone
    surrogate is not encoded at all. *)
Lemma roundtrip_counterexample :
  (_write (VError [97; 10; 98]) = Ok (lit "-a" ++ [10] ++ lit "b" ++ CRLF) /\
   decode (lit "-a" ++ [10] ++ lit "b" ++ CRLF)
   = Ok (VError (lit "a"), lit "b" ++ CRLF) /\
   VError (lit "a") <> VError [97; 10; 98]) /\
  (_write (VError [97; 13]) = Ok (lit "-a" ++ [13] ++ CRLF) /\
   decode (lit "-a" ++ [13] ++ CRLF) = Ok (VError (lit "a"), []) /\
   VError (lit "a") <> VError [97; 13]) /\
  (_write (VBytes (lit "hi")) = Ok (lit "$2" ++ CRLF ++ lit "hi" ++ CRLF) /\
   decode (lit "$2" ++ CRLF ++ lit "hi" ++ CRLF) = Ok (VStr (lit "hi"), []) /\
   VStr (lit "hi") <> VBytes (lit "hi")) /\
  _write (VStr [55296]) = Raise UnicodeEncodeError.
Proof.
  repeat split; try reflexivity; discriminate.
Qed.

(** ** The decoder always answers *)

Lemma readline_length (s : bytes) :
  (length (snd (readline s)) <= length s)%nat.
Proof.
  induction s as [|c s IH]; cbn [readline]; [reflexivity|].
  destruct (c =? 10); [cbn; lia|].
  destruct (readline s) as [l r]. cbn [snd length] in *. lia.
Qed.

Lemma py_int_answers (b : bytes) : py_int b <> OutOfFuel.
Proof.
  unfold py_int.
  destruct (snd _) as [|c t]; [discriminate|].
  destruct (is_digit c); [|discriminate].
  destruct (parse_digits 0 false (c :: t)); discriminate.
Qed.

Lemma dict_of_pairs_answers (pairs : list (value * value)) (acc : dict) :
  dict_of_pairs acc pairs <> OutOfFuel.
Proof.
  revert acc; induction pairs as [|[k v] t IH]; intros acc; cbn [dict_of_pairs];
    [discriminate|].
  destruct (hashable k); [apply IH|discriminate].
Qed.

Lemma line_handlers_shrinking :
  shrinking handle_simple_string /\ shrinking handle_error /\
  shrinking handle_integer /\ shrinking handle_string.
Proof.
  unfold shrinking, handle_simple_string, handle_error, handle_integer,
    handle_string.
  repeat split; intros s v s'; pose proof (readline_length s) as L;
    destruct (readline s) as [line r]; cbn [snd] in L.
  - destruct (utf8_decode _); intros E; inversion E; subst; exact L.
  - destruct (utf8_decode _); intros E; inversion E; subst; exact L.
  - destruct (py_int _); cbn [bind]; intros E; inversion E; subst; exact L.
  - destruct (py_int _) as [n| |]; cbn [bind]; try discriminate.
    destruct (n =? -1); [intros E; inversion E; subst; exact L|].
    unfold read. destruct (n + 2 <? -1); [discriminate|].
    destruct (n + 2 =? -1); cbn [bind]; intros E; inversion E; subst.
    + cbn; lia.
    + rewrite length_skipn. lia.
Qed.

Lemma read_items_shrinking rec (num : nat) :
  shrinking rec ->
  forall s vs s', read_items rec num s = Ok (vs, s') ->
    (length s' <= length s)%nat.
Proof.
  intros Hrec. induction num as [|n IH]; intros s vs s'; cbn [read_items].
  - intros E; inversion E; subst; reflexivity.
  - destruct (rec s) as [[v s1]| |] eqn:E1; cbn [bind]; try discriminate.
    destruct (read_items rec n s1) as [[vs1 s2]| |] eqn:E2; cbn [bind];
      try discriminate.
    intros E; inversion E; subst.
    pose proof (Hrec _ _ _ E1). pose proof (IH _ _ _ E2). lia.
Qed.

Lemma nested_handlers_shrinking rec :
  shrinking rec -> shrinking (handle_array rec) /\ shrinking (handle_dict rec).
Proof.
  intros Hrec. unfold shrinking, handle_array, handle_dict.
  split; intros s v s'; pose proof (readline_length s) as L;
    destruct (readline s) as [line r]; cbn [snd] in L;
    (destruct (py_int _) as [n| |]; cbn [bind]; try discriminate).
  - destruct (read_items rec _ r) as [[vs s1]| |] eqn:E1; cbn [bind];
      try discriminate.
    intros E; inversion E; subst.
    pose proof (read_items_shrinking rec _ Hrec _ _ _ E1). lia.
  - destruct (read_items rec _ r) as [[vs s1]| |] eqn:E1; cbn [bind];
      try discriminate.
    destruct (dict_of_pairs _ _); cbn [bind]; try discriminate.
    intros E; inversion E; subst.
    pose proof (read_items_shrinking rec _ Hrec _ _ _ E1). lia.
Qed.

(** Every frame takes at least its tag byte from the stream. *)
Lemma handle_request_consumes (fuel : nat) :
  forall s v s', handle_request fuel s = Ok (v, s') ->
    (length s' < length s)%nat.
Proof.
  destruct line_handlers_shrinking as (H1 & H2 & H3 & H4).
  induction fuel as [|f IH]; intros s v s'; cbn [handle_request];
    [discriminate|].
  assert (Hrec : shrinking (handle_request f))
    by (intros s0 v0 s0' E; apply IH in E; lia).
  destruct (nested_handlers_shrinking _ Hrec) as [H5 H6].
  destruct s as [|c t]; [discriminate|]. cbn [length].
  repeat match goal with
  | |- context [if ?b then _ else _] => destruct b
  end; intros E;
    first [ apply H1 in E | apply H2 in E | apply H3 in E | apply H4 in E
          | apply H5 in E | apply H6 in E | discriminate ]; lia.
Qed.

Lemma decode_consumes (s s' : bytes) (v : value) :
  decode s = Ok (v, s') -> (length s' < length s)%nat.
Proof. apply handle_request_consumes. Qed.

Lemma read_items_answers rec (num : nat) :
  shrinking rec ->
  forall s, (forall s1, (length s1 <= length s)%nat -> rec s1 <> OutOfFuel) ->
    read_items rec num s <> OutOfFuel.
Proof.
  intros Hrec. induction num as [|n IH]; intros s Hs; cbn [read_items];
    [discriminate|].
  destruct (rec s) as [[v s1]| |] eqn:E1; cbn [bind]; try discriminate.
  - assert (L := Hrec _ _ _ E1).
    assert (N : read_items rec n s1 <> OutOfFuel)
      by (apply IH; intros s2 H2; apply Hs; lia).
    destruct (read_items rec n s1) as [[vs s2]| |]; cbn [bind];
      congruence.
  - exfalso. apply (Hs s); [lia|exact E1].
Qed.

(** Fuel above the length of the stream is never used up. *)
Lemma handle_request_answers (fuel : nat) :
  forall s, (length s < fuel)%nat -> handle_request fuel s <> OutOfFuel.
Proof.
  induction fuel as [|f IH]; intros s Hs; [lia|].
  cbn [handle_request]. destruct s as [|c t]; [discriminate|].
  cbn [length] in Hs.
  assert (Hrec : shrinking (handle_request f))
    by (intros s0 v0 s0' E; apply handle_request_consumes in E; lia).
  assert (Items : forall n, read_items (handle_request f) n
                              (snd (readline t)) <> OutOfFuel).
  { intros n. apply read_items_answers; [exact Hrec|].
    intros s1 H1. apply IH. pose proof (readline_length t). lia. }
  repeat match goal with
  | |- context [if ?b then _ else _] => destruct b
  end; try discriminate.
  - unfold handle_simple_string. destruct (readline t) as [l r].
    destruct (utf8_decode _); discriminate.
  - unfold handle_error. destruct (readline t) as [l r].
    destruct (utf8_decode _); discriminate.
  - unfold handle_integer. destruct (readline t) as [l r].
    pose proof (py_int_answers (rstrip is_crlf l)).
    destruct (py_int _); cbn [bind]; congruence.
  - unfold handle_string. destruct (readline t) as [l r].
    pose proof (py_int_answers (rstrip is_crlf l)).
    destruct (py_int _) as [n| |]; cbn [bind]; try congruence.
    destruct (n =? -1); [discriminate|]. unfold read.
    destruct (n + 2 <? -1); [discriminate|].
    destruct (n + 2 =? -1); discriminate.
  - unfold handle_array. destruct (readline t) as [l r]. cbn [snd] in Items.
    pose proof (py_int_answers (rstrip is_crlf l)).
    destruct (py_int _) as [n| |]; cbn [bind]; try congruence.
    specialize (Items (Z.to_nat n)).
    destruct (read_items _ _ r) as [[vs s1]| |]; cbn [bind]; congruence.
  - unfold handle_dict. destruct (readline t) as [l r]. cbn [snd] in Items.
    pose proof (py_int_answers (rstrip is_crlf l)).
    destruct (py_int _) as [n| |]; cbn [bind]; try congruence.
    specialize (Items (Z.to_nat (n * 2))).
    destruct (read_items _ _ r) as [[vs s1]| |]; cbn [bind]; try congruence.
    pose proof (dict_of_pairs_answers
                  (combine (every_other vs) (every_other (tl vs))) []).
    destruct (dict_of_pairs _ _); cbn [bind]; congruence.
Qed.

(** [decode] is total: a value and the rest of the stream, or an
    exception. *)
Lemma decode_answers (s : bytes) : decode s <> OutOfFuel.
Proof. apply handle_request_answers. lia. Qed.

(** ** The session always ends *)

Lemma write_answers (v : value) : _write v <> OutOfFuel.
Proof.
  induction v as [s|b|n|m| |l IH|d IH] using value_ind; cbn [_write];
    try discriminate.
  - destruct (utf8_encode s); discriminate.
  - destruct (utf8_encode m); discriminate.
  - assert (H : write_items _write l <> OutOfFuel).
    { induction IH as [|x l Hx _ IHl]; cbn [write_items]; [discriminate|].
      destruct (_write x); cbn [bind]; try congruence.
      destruct (write_items _write l); cbn [bind]; congruence. }
    destruct (write_items _write l); cbn [bind]; congruence.
  - assert (H : write_pairs _write d <> OutOfFuel).
    { induction IH as [|[k v] d [Hk Hv] _ IHd]; cbn [write_pairs fst snd] in *;
        [discriminate|].
      destruct (_write k); cbn [bind]; try congruence.
      destruct (_write v); cbn [bind]; try congruence.
      destruct (write_pairs _write d); cbn [bind]; congruence. }
    destruct (write_pairs _write d); cbn [bind]; congruence.
Qed.

Lemma mget_items_answers (kv : dict) (keys : list value) :
  mget_items kv keys <> OutOfFuel.
Proof.
  induction keys as [|k t IH]; cbn [mget_items]; [discriminate|].
  destruct (hashable k); [|discriminate].
  destruct (mget_items kv t); cbn [bind]; congruence.
Qed.

Lemma mset_loop_answers (items : list value) :
  forall kv count, fst (mset_loop kv count items) <> OutOfFuel.
Proof.
  assert (H : forall n items, (length items <= n)%nat ->
    forall kv count, fst (mset_loop kv count items) <> OutOfFuel).
  { induction n as [|n IH]; intros [|k [|v rest]] Hl kv count;
      cbn [mset_loop fst length] in *; try discriminate; try lia.
    destruct (hashable k); [apply IH; lia|discriminate]. }
  apply (H (length items)). lia.
Qed.

Lemma commands_answer (name : str) (h : handler) :
  lookup_command name get_commands = Some h ->
  forall kv args, fst (h kv args) <> OutOfFuel.
Proof.
  unfold get_commands. cbn [lookup_command].
  repeat match goal with
  | |- context [if ?b then _ else _] => destruct b
  end; intros E; inversion E; subst; intros kv args.
  - unfold get. destruct args as [|k [|? ?]]; try discriminate.
    destruct (hashable k); discriminate.
  - unfold set. destruct args as [|k [|v [|? ?]]]; try discriminate.
    destruct (hashable k); discriminate.
  - unfold delete. destruct args as [|k [|? ?]]; try discriminate.
    destruct (hashable k); discriminate.
  - unfold flush. destruct args; discriminate.
  - unfold mget. cbn [fst]. pose proof (mget_items_answers kv args).
    destruct (mget_items kv args); cbn [bind]; congruence.
  - apply mset_loop_answers.
Qed.

Section SessionFacts.
Variable to_upper_full : Z -> list Z.

Lemma get_response_answers (kv : dict) (data : value) :
  fst (get_response to_upper_full kv data) <> OutOfFuel.
Proof.
  unfold get_response.
  assert (T : tokens data <> OutOfFuel) by (destruct data; discriminate).
  destruct (tokens data) as [[|cmd args]| |]; try discriminate; try congruence.
  assert (C : command_name to_upper_full cmd <> OutOfFuel).
  { destruct cmd; try discriminate. cbn [command_name].
    destruct (utf8_decode b); discriminate. }
  destruct (command_name to_upper_full cmd) as [name| |];
    try discriminate; try congruence.
  destruct (lookup_command name get_commands) as [h|] eqn:E; [|discriminate].
  apply (commands_answer name h E).
Qed.

Lemma respond_answers (kv : dict) (data : value) :
  fst (respond to_upper_full kv data) <> OutOfFuel.
Proof.
  unfold respond. pose proof (get_response_answers kv data) as G.
  destruct (get_response to_upper_full kv data) as [r kv']. cbn [fst] in *.
  destruct r as [resp|e|]; [| |congruence].
  - cbn [bind]. apply write_answers.
  - destruct e; cbn [bind]; try discriminate.
    unfold write_response. cbn [_write].
    destruct (utf8_encode msg); discriminate.
Qed.

(** The loop does not depend on the fuel once it is above the length of
    the stream. *)
Lemma connection_handler_fuel (f1 : nat) :
  forall f2 kv s, (length s < f1)%nat -> (length s < f2)%nat ->
    connection_handler to_upper_full f1 kv s
    = connection_handler to_upper_full f2 kv s.
Proof.
  induction f1 as [|f1 IH]; intros [|f2] kv s H1 H2; try lia.
  cbn [connection_handler].
  destruct (decode s) as [[data rest]|e|] eqn:D; try reflexivity.
  apply decode_consumes in D.
  destruct (respond to_upper_full kv data) as [[out|e|] kv'];
    try reflexivity.
  f_equal. apply IH; lia.
Qed.

(** One turn of the session. *)
Lemma session_turn (kv : dict) (s : bytes) :
  session to_upper_full kv s =
  match decode s with
  | Raise Disconnect => {| sent := []; store := kv; how := Closed |}
  | Raise e => {| sent := []; store := kv; how := Crashed e |}
  | OutOfFuel => {| sent := []; store := kv; how := Unfinished |}
  | Ok (data, rest) =>
      match respond to_upper_full kv data with
      | (Ok out, kv') => send_then out (session to_upper_full kv' rest)
      | (Raise e, kv') => {| sent := []; store := kv'; how := Crashed e |}
      | (OutOfFuel, kv') => {| sent := []; store := kv'; how := Unfinished |}
      end
  end.
Proof.
  unfold session at 1. cbn [connection_handler].
  destruct (decode s) as [[data rest]|e|] eqn:D; try reflexivity.
  apply decode_consumes in D.
  destruct (respond to_upper_full kv data) as [[out|e|] kv'];
    try reflexivity.
  f_equal. apply connection_handler_fuel; lia.
Qed.


(** An exception of the decoder other than [Disconnect] ends the session
    at once: nothing is sent, the store is as it was. *)
Lemma decode_fault_ends_session (kv : dict) (s : bytes) (e : exn) :
  decode s = Raise e -> e <> Disconnect ->
  session to_upper_full kv s = {| sent := []; store := kv; how := Crashed e |}.
Proof.
  intros D N. rewrite session_turn, D. destruct e; congruence.
Qed.

(** A [CommandError] of the dispatch is sent as an error and the loop
    goes on. *)
Lemma command_error_answered (kv kv' : dict) (s rest : bytes)
    (data : value) (msg : str) (b : bytes) :
  decode s = Ok (data, rest) ->
  get_response to_upper_full kv data = (Raise (CommandError msg), kv') ->
  utf8_encode msg = Some b ->
  session to_upper_full kv s
  = send_then (45 :: b ++ CRLF) (session to_upper_full kv' rest).
Proof.
  intros D G E. rewrite session_turn, D. unfold respond. rewrite G.
  cbn [bind]. unfold write_response. cbn [_write]. rewrite E. reflexivity.
Qed.

(** Any other exception of the dispatch ends the session with nothing
    sent for the request. *)
Lemma handler_fault_ends_session (kv kv' : dict) (s rest : bytes)
    (data : value) (e : exn) :
  decode s = Ok (data, rest) ->
  get_response to_upper_full kv data = (Raise e, kv') ->
  (forall msg, e <> CommandError msg) ->
  session to_upper_full kv s = {| sent := []; store := kv'; how := Crashed e |}.
Proof.
  intros D G N. rewrite session_turn, D. unfold respond. rewrite G.
  destruct e; try reflexivity. destruct (N msg eq_refl).
Qed.
End SessionFacts.

(** ** Malformed frames *)

Lemma non_numeric_raises (line : bytes) :
  non_numeric line = true -> py_int (rstrip is_crlf line) = Raise ValueError.
Proof.
  unfold non_numeric, py_int.
  destruct (snd _) as [|d ds]; [reflexivity|].
  destruct (is_digit d); [|reflexivity].
  destruct (parse_digits 0 false (d :: ds)); [discriminate|reflexivity].
Qed.

Lemma malformed_raises (s : bytes) :
  malformed s = true ->
  decode s = Raise (CommandError (lit "bad request")) \/
  decode s = Raise ValueError.
Proof.
  destruct s as [|c t]; [discriminate|]. unfold malformed, decode.
  cbn [length handle_request]. generalize (handle_request (length t)).
  intros rec. unfold is_tag, reads_integer. cbn [existsb].
  rewrite !orb_false_r.
  pose proof (non_numeric_raises (fst (readline t))) as NN.
  destruct (Z.eqb_spec c 43) as [->|];
    [cbn; discriminate|]; destruct (Z.eqb_spec c 45) as [->|];
    [cbn; discriminate|]; cbn [orb negb andb].
  destruct (Z.eqb_spec c 58) as [->|]; [|destruct (Z.eqb_spec c 36) as [->|];
    [|destruct (Z.eqb_spec c 42) as [->|];
      [|destruct (Z.eqb_spec c 37) as [->|]]]]; cbn [orb negb andb];
    intros H; [right..|left; reflexivity]; specialize (NN H);
    unfold handle_integer, handle_string, handle_array, handle_dict;
    destruct (readline t) as [l r]; cbn [fst] in NN; rewrite NN; reflexivity.
Qed.



(** ** Bulk strings *)




(** ** Dict operations *)

Lemma key_eqb_true (a b : value) : key_eqb a b = true -> a = b.
Proof.
  destruct a, b; cbn [key_eqb]; try discriminate; intros H;
    try (apply str_eqb_eq in H); try (apply Z.eqb_eq in H); congruence.
Qed.

(** Lookup after an assignment. *)
Lemma dict_get_set (k k' v : value) (d : dict) :
  dict_get k (dict_set k' v d)
  = if key_eqb k k' then Some v else dict_get k d.
Proof.
  induction d as [|[k0 v0] d IH]; cbn [dict_set dict_get]; [reflexivity|].
  destruct (key_eqb k' k0) eqn:E0; cbn [dict_get].
  - apply key_eqb_true in E0 as ->.
    destruct (key_eqb k k0); reflexivity.
  - rewrite IH. destruct (key_eqb k k0) eqn:E1; [|reflexivity].
    destruct (key_eqb k k') eqn:E2; [|reflexivity].
    apply key_eqb_true in E2. subst k'. congruence.
Qed.

Lemma dict_get_app (k : value) (d1 d2 : dict) :
  dict_get k (d1 ++ d2)
  = match dict_get k d1 with Some v => Some v | None => dict_get k d2 end.
Proof.
  induction d1 as [|[k0 v0] d1 IH]; cbn [app dict_get]; [reflexivity|].
  destruct (key_eqb k k0); [reflexivity|exact IH].
Qed.

(** After the pairs are written in order, a key has the value of the last
    pair that names it, or else what it had before. *)
Lemma dict_get_write_all (k : value) (pairs : list (value * value)) :
  forall kv,
    dict_get k (write_all kv pairs)
    = match dict_get k (rev pairs) with
      | Some v => Some v
      | None => dict_get k kv
      end.
Proof.
  induction pairs as [|[k' v] t IH]; intros kv; [reflexivity|].
  change (write_all kv ((k', v) :: t)) with (write_all (dict_set k' v kv) t).
  rewrite IH, dict_get_set. cbn [rev]. rewrite dict_get_app.
  cbn [dict_get]. destruct (dict_get k (rev t)); [reflexivity|].
  destruct (key_eqb k k'); reflexivity.
Qed.

Lemma dict_set_keys (a k v : value) (d : dict) :
  existsb (key_eqb a) (map fst (dict_set k v d))
  = existsb (key_eqb a) (map fst d) || key_eqb a k.
Proof.
  induction d as [|[k0 v0] d IH]; cbn [dict_set map fst existsb].
  - rewrite orb_false_r. reflexivity.
  - destruct (key_eqb k k0) eqn:E; cbn [map fst existsb].
    + apply key_eqb_true in E as ->.
      destruct (key_eqb a k0); cbn [orb]; [reflexivity|].
      rewrite orb_false_r. reflexivity.
    + rewrite IH, orb_assoc. reflexivity.
Qed.

(** An assignment keeps the keys of a dict pairwise different. *)
Lemma dict_set_wf (k v : value) (d : dict) :
  hashable k = true -> dict_wf d = true -> dict_wf (dict_set k v d) = true.
Proof.
  intros Hk. induction d as [|[k0 v0] d IH]; cbn [dict_set dict_wf].
  - intros _. cbn [map existsb negb]. rewrite Hk. reflexivity.
  - intros H. apply andb_true_iff in H as [H Hd].
    apply andb_true_iff in H as [Hh Hn]. apply negb_true_iff in Hn.
    destruct (key_eqb k k0) eqn:E; cbn [dict_wf].
    + rewrite Hh, Hn, Hd. reflexivity.
    + rewrite Hh, (IH Hd), dict_set_keys, Hn, (key_eqb_sym k0 k), E.
      reflexivity.
Qed.

Lemma write_all_wf (pairs : list (value * value)) :
  forall kv,
    forallb hashable (map fst pairs) = true -> dict_wf kv = true ->
    dict_wf (write_all kv pairs) = true.
Proof.
  induction pairs as [|[k v] t IH]; intros kv; cbn [map fst forallb];
    [auto|].
  intros H Hkv. apply andb_true_iff in H as [Hk Ht].
  change (write_all kv ((k, v) :: t)) with (write_all (dict_set k v kv) t).
  apply IH; [exact Ht|]. apply dict_set_wf; assumption.
Qed.

(** [dict(pairs)] writes the pairs in order; it fails on the first key
    that has no hash and on nothing else. *)
Lemma dict_of_pairs_hashable (pairs : list (value * value)) :
  forall acc,
    forallb hashable (map fst pairs) = true ->
    dict_of_pairs acc pairs = Ok (write_all acc pairs).
Proof.
  induction pairs as [|[k v] t IH]; intros acc; cbn [map fst forallb];
    [reflexivity|].
  intros H. apply andb_true_iff in H as [Hk Ht].
  cbn [dict_of_pairs]. rewrite Hk. apply IH. exact Ht.
Qed.

Lemma dict_of_pairs_unhashable (pairs : list (value * value)) :
  forall acc,
    forallb hashable (map fst pairs) = false ->
    dict_of_pairs acc pairs = Raise TypeError.
Proof.
  induction pairs as [|[k v] t IH]; intros acc; cbn [map fst forallb];
    [discriminate|].
  cbn [dict_of_pairs]. destruct (hashable k); cbn [andb];
    [apply IH|reflexivity].
Qed.

Lemma dict_wf_hashable (d : dict) :
  dict_wf d = true -> forallb hashable (map fst d) = true.
Proof.
  induction d as [|[k v] d IH]; cbn [dict_wf map fst forallb]; [auto|].
  intros H. apply andb_true_iff in H as [H Hd].
  apply andb_true_iff in H as [-> _]. exact (IH Hd).
Qed.

Lemma length_pairs_of (items : list value) :
  length (pairs_of items) = Nat.div2 (length items).
Proof.
  assert (H : forall n (l : list value), (length l <= n)%nat ->
    length (pairs_of l) = Nat.div2 (length l)).
  { induction n as [|n IH]; intros [|k [|v l]] Hl; try reflexivity;
      cbn [length] in Hl; try lia.
    cbn [pairs_of length Nat.div2]. f_equal. apply IH. lia. }
  apply (H (length items)). lia.
Qed.

Lemma read_items_length rec (num : nat) :
  forall s vs s', read_items rec num s = Ok (vs, s') -> length vs = num.
Proof.
  induction num as [|n IH]; intros s vs s'; cbn [read_items].
  - intros E; inversion E; reflexivity.
  - destruct (rec s) as [[v s1]| |]; cbn [bind]; try discriminate.
    destruct (read_items rec n s1) as [[vs1 s2]| |] eqn:E2; cbn [bind];
      try discriminate.
    intros E; inversion E; subst. cbn [length]. f_equal. exact (IH _ _ _ E2).
Qed.

(** ** Maps *)

(** C2 (as amended).  For a [%] frame whose count line reads as [num] and
    whose [2 * num] values decode to [items], with keys that have a hash:
    the frame decodes to the dict in which the pairs [(items[0], items[1])],
    [(items[2], items[3])], ... were written in the order received.  Its
    keys are pairwise different; a key received more than once stays at the
    place of its first pair and has the value of its last pair; when the
    keys received are pairwise different the dict lists exactly the [num]
    pairs in the order received. *)
Theorem handle_dict_pairs (fuel : nat) (s rest : bytes) (num : Z)
    (items : list value) :
  py_int (rstrip is_crlf (fst (readline s))) = Ok num ->
  read_items (handle_request fuel) (Z.to_nat (num * 2)) (snd (readline s))
  = Ok (items, rest) ->
  forallb hashable (map fst (pairs_of items)) = true ->
  let d := write_all [] (pairs_of items) in
  handle_request (S fuel) (37 :: s) = Ok (VDict d, rest) /\
  length items = Z.to_nat (num * 2) /\
  length (pairs_of items) = Z.to_nat num /\
  dict_wf d = true /\
  (forall k, dict_get k d = dict_get k (rev (pairs_of items))) /\
  (dict_wf (pairs_of items) = true -> d = pairs_of items).
Proof.
  intros Hn Hi Hh d.
  assert (L := read_items_length _ _ _ _ _ Hi).
  split; [|split; [exact L|split; [|split; [|split]]]].
  - change (handle_request (S fuel) (37 :: s))
      with (handle_dict (handle_request fuel) s).
    unfold handle_dict. destruct (readline s) as [line r].
    cbn [fst snd] in Hn, Hi. rewrite Hn. cbn [bind]. rewrite Hi. cbn [bind].
    rewrite zip_every_other, (dict_of_pairs_hashable _ [] Hh). reflexivity.
  - rewrite length_pairs_of, L.
    destruct (Z.le_gt_cases num 0) as [Hle|Hgt].
    + replace (Z.to_nat (num * 2)) with 0%nat by lia.
      replace (Z.to_nat num) with 0%nat by lia. reflexivity.
    + replace (Z.to_nat (num * 2)) with (2 * Z.to_nat num)%nat by lia.
      apply Nat.div2_double.
  - apply write_all_wf; [exact Hh|reflexivity].
  - intros k. unfold d. rewrite dict_get_write_all.
    destruct (dict_get k (rev (pairs_of items))); reflexivity.
  - intros Hwf. unfold d.
    pose proof (dict_of_pairs_hashable (pairs_of items) [] Hh) as E1.
    pose proof (dict_of_pairs_wf (pairs_of items) [] Hwf) as E2.
    cbn [app] in E2. congruence.
Qed.

Lemma handle_dict_pairs_witness :
  let s := lit "2" ++ CRLF ++ lit "+a" ++ CRLF ++ lit ":1" ++ CRLF
           ++ lit "+a" ++ CRLF ++ lit ":2" ++ CRLF in
  let items := [VStr (lit "a"); VInt 1; VStr (lit "a"); VInt 2] in
  let d := write_all [] (pairs_of items) in
  d = [(VStr (lit "a"), VInt 2)] /\
  handle_request 2 (37 :: s) = Ok (VDict d, []) /\
  length items = Z.to_nat (2 * 2) /\
  length (pairs_of items) = Z.to_nat 2 /\
  dict_wf d = true /\
  (forall k, dict_get k d = dict_get k (rev (pairs_of items))) /\
  (dict_wf (pairs_of items) = true -> d = pairs_of items).
Proof.
  split; [reflexivity|].
  exact (handle_dict_pairs 1
           (lit "2" ++ CRLF ++ lit "+a" ++ CRLF ++ lit ":1" ++ CRLF
            ++ lit "+a" ++ CRLF ++ lit ":2" ++ CRLF) [] 2
           [VStr (lit "a"); VInt 1; VStr (lit "a"); VInt 2]
           eq_refl eq_refl eq_refl).
Defined.

(** C2 fails as stated: a key received twice is kept once.  The four
    values of the frame decode to [1, 2, 1, 3]; the dict has the single
    pair [(1, 3)], not the two pairs received.  A key without hash, here
    an empty array, is refused. *)
Lemma handle_dict_counterexample :
  let body := lit ":1" ++ CRLF ++ lit ":2" ++ CRLF
              ++ lit ":1" ++ CRLF ++ lit ":3" ++ CRLF in
  read_items (handle_request 1) 4 body
  = Ok ([VInt 1; VInt 2; VInt 1; VInt 3], []) /\
  decode (lit "%2" ++ CRLF ++ body) = Ok (VDict [(VInt 1, VInt 3)], []) /\
  [(VInt 1, VInt 3)] <> [(VInt 1, VInt 2); (VInt 1, VInt 3)] /\
  decode (lit "%1" ++ CRLF ++ lit "*0" ++ CRLF ++ lit ":1" ++ CRLF)
  = Raise TypeError.
Proof.
  repeat split; try reflexivity. discriminate.
Qed.

(** ** Commands *)

Lemma utf8_encode_app (s1 s2 : str) (b1 b2 : bytes) :
  utf8_encode s1 = Some b1 -> utf8_encode s2 = Some b2 ->
  utf8_encode (s1 ++ s2) = Some (b1 ++ b2).
Proof.
  revert b1; induction s1 as [|c s1 IH]; intros b1; cbn [utf8_encode app].
  - intros E; injection E as <-. auto.
  - destruct (utf8_encode_char c) as [bc|]; [|discriminate].
    destruct (utf8_encode s1) as [bs|]; [|discriminate].
    intros E E2; injection E as <-.
    rewrite (IH bs eq_refl E2), app_assoc. reflexivity.
Qed.

(** C5.  A request whose command name, in upper case, is not in the
    command table raises [CommandError] with the message
    [Command not found: NAME] and leaves the store as it was; the session
    sends that message as an error and goes on with the next request on
    the same store. *)
Theorem unknown_command_answered (to_upper_full : Z -> list Z) (kv : dict)
    (s rest : bytes) (data cmd : value) (args : list value) (name : str)
    (b : bytes) :
  decode s = Ok (data, rest) ->
  tokens data = Ok (cmd :: args) ->
  command_name to_upper_full cmd = Ok name ->
  lookup_command name get_commands = None ->
  utf8_encode name = Some b ->
  get_response to_upper_full kv data
  = (Raise (CommandError (lit "Command not found: " ++ name)), kv) /\
  session to_upper_full kv s
  = send_then (lit "-Command not found: " ++ b ++ CRLF)
      (session to_upper_full kv rest).
Proof.
  intros D T C L E.
  assert (G : get_response to_upper_full kv data
              = (Raise (CommandError (lit "Command not found: " ++ name)), kv))
    by (unfold get_response; rewrite T, C, L; reflexivity).
  split; [exact G|].
  rewrite (command_error_answered to_upper_full kv kv s rest data
             (lit "Command not found: " ++ name)
             (lit "Command not found: " ++ b) D G).
  - rewrite <- app_assoc. reflexivity.
  - apply utf8_encode_app; [reflexivity|exact E].
Qed.

Lemma unknown_command_answered_witness :
  let tbl := fun c : Z => [c] in
  let s := lit "*2" ++ CRLF ++ lit "$3" ++ CRLF ++ lit "foo" ++ CRLF
           ++ lit "$1" ++ CRLF ++ lit "x" ++ CRLF ++ lit "*1" ++ CRLF
           ++ lit "$5" ++ CRLF ++ lit "FLUSH" ++ CRLF in
  let rest := lit "*1" ++ CRLF ++ lit "$5" ++ CRLF ++ lit "FLUSH" ++ CRLF in
  let kv := [(VStr (lit "a"), VInt 1)] in
  get_response tbl kv (VList [VStr (lit "foo"); VStr (lit "x")])
  = (Raise (CommandError (lit "Command not found: FOO")), kv) /\
  session tbl kv s
  = send_then (lit "-Command not found: FOO" ++ CRLF) (session tbl kv rest).
Proof.
  exact (unknown_command_answered (fun c => [c])
           [(VStr (lit "a"), VInt 1)]
           (lit "*2" ++ CRLF ++ lit "$3" ++ CRLF ++ lit "foo" ++ CRLF
            ++ lit "$1" ++ CRLF ++ lit "x" ++ CRLF ++ lit "*1" ++ CRLF
            ++ lit "$5" ++ CRLF ++ lit "FLUSH" ++ CRLF)
           (lit "*1" ++ CRLF ++ lit "$5" ++ CRLF ++ lit "FLUSH" ++ CRLF)
           (VList [VStr (lit "foo"); VStr (lit "x")])
           (VStr (lit "foo")) [VStr (lit "x")] (lit "FOO") (lit "FOO")
           eq_refl eq_refl eq_refl eq_refl eq_refl).
Defined.

Lemma length_pairs_parity (items : list value) :
  length items
  = (2 * length (pairs_of items)
     + if Nat.odd (length items) then 1 else 0)%nat.
Proof.
  assert (H : forall n (l : list value), (length l <= n)%nat ->
    length l = (2 * length (pairs_of l)
                + if Nat.odd (length l) then 1 else 0)%nat).
  { induction n as [|n IH]; intros [|k [|v l]] Hl; try reflexivity;
      cbn [length] in Hl; try lia.
    cbn [pairs_of length]. rewrite Nat.odd_succ_succ.
    rewrite (IH l) at 1 by lia. lia. }
  apply (H (length items)). lia.
Qed.

(** The loop of [mset] on keys that all have a hash: every pair is
    written, in order; a key left alone at the end raises
    [StopIteration] after that. *)
Lemma mset_loop_hashable (items : list value) :
  forall kv count,
    forallb hashable (map fst (pairs_of items)) = true ->
    mset_loop kv count items
    = (if Nat.odd (length items) then Raise StopIteration
       else Ok (VInt (count + Z.of_nat (length (pairs_of items)))),
       write_all kv (pairs_of items)).
Proof.
  assert (H : forall n (l : list value), (length l <= n)%nat ->
    forall kv count, forallb hashable (map fst (pairs_of l)) = true ->
    mset_loop kv count l
    = (if Nat.odd (length l) then Raise StopIteration
       else Ok (VInt (count + Z.of_nat (length (pairs_of l)))),
       write_all kv (pairs_of l))).
  { induction n as [|n IH]; intros [|k [|v l]] Hl kv count Hh;
      cbn [length] in Hl; try lia;
      try (cbn [mset_loop pairs_of length]; rewrite Z.add_0_r; reflexivity);
      try reflexivity.
    cbn [pairs_of map fst forallb] in Hh.
    apply andb_true_iff in Hh as [Hk Hh].
    cbn [mset_loop pairs_of length]. rewrite Hk, Nat.odd_succ_succ.
    rewrite (IH l) by (assumption || lia).
    change (write_all kv ((k, v) :: pairs_of l))
      with (write_all (dict_set k v kv) (pairs_of l)).
    destruct (Nat.odd (length l)); [reflexivity|].
    do 3 f_equal. lia. }
  intros kv count. apply (H (length items)). lia.
Qed.

(** With an odd number of items the loop always raises, and never a
    [CommandError]. *)
Lemma mset_loop_odd (items : list value) :
  forall kv count,
    Nat.odd (length items) = true ->
    exists e kv', mset_loop kv count items = (Raise e, kv') /\
                  (e = StopIteration \/ e = TypeError).
Proof.
  assert (H : forall n (l : list value), (length l <= n)%nat ->
    forall kv count, Nat.odd (length l) = true ->
    exists e kv', mset_loop kv count l = (Raise e, kv') /\
                  (e = StopIteration \/ e = TypeError)).
  { induction n as [|n IH]; intros [|k [|v l]] Hl kv count Ho;
      cbn [length] in Hl, Ho; try lia; try discriminate.
    - exists StopIteration, kv. auto.
    - rewrite Nat.odd_succ_succ in Ho. cbn [mset_loop].
      destruct (hashable k); [apply IH; [lia|exact Ho]|].
      exists TypeError, kv. auto. }
  intros kv count. apply (H (length items)). lia.
Qed.

(** C6.  A request for [MSET] with an odd number of arguments makes the
    handler raise an exception that is not a [CommandError]
    ([StopIteration], or [TypeError] for a key without hash met before the
    end): the session ends there and sends nothing for the request. *)
Theorem mset_odd_ends_session (to_upper_full : Z -> list Z) (kv : dict)
    (s rest : bytes) (data cmd : value) (items : list value) :
  decode s = Ok (data, rest) ->
  tokens data = Ok (cmd :: items) ->
  command_name to_upper_full cmd = Ok (lit "MSET") ->
  Nat.odd (length items) = true ->
  exists e kv',
    mset kv items = (Raise e, kv') /\
    (forall msg, e <> CommandError msg) /\
    session to_upper_full kv s
    = {| sent := []; store := kv'; how := Crashed e |}.
Proof.
  intros D T C Ho.
  destruct (mset_loop_odd items kv 0 Ho) as (e & kv' & M & He).
  exists e, kv'. split; [exact M|].
  assert (N : forall msg, e <> CommandError msg)
    by (intros msg; destruct He as [->| ->]; discriminate).
  split; [exact N|].
  apply (handler_fault_ends_session to_upper_full kv kv' s rest data e D);
    [|exact N].
  unfold get_response. rewrite T, C. exact M.
Qed.

Lemma mset_odd_ends_session_witness :
  let s := lit "*4" ++ CRLF ++ lit "$4" ++ CRLF ++ lit "mset" ++ CRLF
           ++ lit "$1" ++ CRLF ++ lit "a" ++ CRLF ++ lit ":1" ++ CRLF
           ++ lit "$1" ++ CRLF ++ lit "b" ++ CRLF in
  exists e kv',
    mset [] [VStr (lit "a"); VInt 1; VStr (lit "b")] = (Raise e, kv') /\
    (forall msg, e <> CommandError msg) /\
    session (fun c => [c]) [] s
    = {| sent := []; store := kv'; how := Crashed e |}.
Proof.
  exact (mset_odd_ends_session (fun c => [c]) []
           (lit "*4" ++ CRLF ++ lit "$4" ++ CRLF ++ lit "mset" ++ CRLF
            ++ lit "$1" ++ CRLF ++ lit "a" ++ CRLF ++ lit ":1" ++ CRLF
            ++ lit "$1" ++ CRLF ++ lit "b" ++ CRLF) []
           (VList [VStr (lit "mset"); VStr (lit "a"); VInt 1; VStr (lit "b")])
           (VStr (lit "mset")) [VStr (lit "a"); VInt 1; VStr (lit "b")]
           eq_refl eq_refl eq_refl eq_refl).
Defined.

(** C10 (as amended).  A request for [MSET] with [2n + 1] arguments whose
    first [n] keys have a hash raises [StopIteration] once the [n] pairs
    are written: the session ends with nothing sent, and its store is the
    store before with the [n] pairs written in order. *)
Theorem mset_odd_partial_write (to_upper_full : Z -> list Z) (kv : dict)
    (s rest : bytes) (data cmd : value) (items : list value) :
  decode s = Ok (data, rest) ->
  tokens data = Ok (cmd :: items) ->
  command_name to_upper_full cmd = Ok (lit "MSET") ->
  Nat.odd (length items) = true ->
  forallb hashable (map fst (pairs_of items)) = true ->
  let kv' := write_all kv (pairs_of items) in
  mset kv items = (Raise StopIteration, kv') /\
  session to_upper_full kv s
  = {| sent := []; store := kv'; how := Crashed StopIteration |} /\
  length items = (2 * length (pairs_of items) + 1)%nat /\
  (forall k, dict_get k kv'
             = match dict_get k (rev (pairs_of items)) with
               | Some v => Some v
               | None => dict_get k kv
               end).
Proof.
  intros D T C Ho Hh kv'.
  assert (M : mset kv items = (Raise StopIteration, kv'))
    by (unfold mset; rewrite (mset_loop_hashable items kv 0 Hh), Ho;
        reflexivity).
  split; [exact M|]. split; [|split].
  - apply (handler_fault_ends_session to_upper_full kv kv' s rest data
             StopIteration D); [|discriminate].
    unfold get_response. rewrite T, C. exact M.
  - rewrite (length_pairs_parity items) at 1. rewrite Ho. reflexivity.
  - intros k. apply dict_get_write_all.
Qed.

Lemma mset_odd_partial_write_witness :
  let s := lit "*4" ++ CRLF ++ lit "$4" ++ CRLF ++ lit "MSET" ++ CRLF
           ++ lit "$1" ++ CRLF ++ lit "a" ++ CRLF ++ lit ":1" ++ CRLF
           ++ lit "$1" ++ CRLF ++ lit "b" ++ CRLF in
  let items := [VStr (lit "a"); VInt 1; VStr (lit "b")] in
  let kv' := write_all [] (pairs_of items) in
  kv' = [(VStr (lit "a"), VInt 1)] /\
  mset [] items = (Raise StopIteration, kv') /\
  session (fun c => [c]) [] s
  = {| sent := []; store := kv'; how := Crashed StopIteration |} /\
  length items = (2 * length (pairs_of items) + 1)%nat /\
  (forall k, dict_get k kv'
             = match dict_get k (rev (pairs_of items)) with
               | Some v => Some v
               | None => dict_get k []
               end).
Proof.
  split; [reflexivity|].
  exact (mset_odd_partial_write (fun c => [c]) []
           (lit "*4" ++ CRLF ++ lit "$4" ++ CRLF ++ lit "MSET" ++ CRLF
            ++ lit "$1" ++ CRLF ++ lit "a" ++ CRLF ++ lit ":1" ++ CRLF
            ++ lit "$1" ++ CRLF ++ lit "b" ++ CRLF) []
           (VList [VStr (lit "MSET"); VStr (lit "a"); VInt 1; VStr (lit "b")])
           (VStr (lit "MSET")) [VStr (lit "a"); VInt 1; VStr (lit "b")]
           eq_refl eq_refl eq_refl eq_refl eq_refl).
Defined.

(** C10 fails as stated: with five arguments, [n = 2], and an array as
    second key, the fault is the [TypeError] of that key and one pair only
    is in the store. *)
Lemma mset_odd_counterexample :
  session unchanged_above_ascii []
    (lit "*6" ++ CRLF ++ lit "$4" ++ CRLF ++ lit "MSET" ++ CRLF
     ++ lit "$1" ++ CRLF ++ lit "a" ++ CRLF ++ lit ":1" ++ CRLF
     ++ lit "*0" ++ CRLF ++ lit ":2" ++ CRLF
     ++ lit "$1" ++ CRLF ++ lit "b" ++ CRLF)
  = {| sent := []; store := [(VStr (lit "a"), VInt 1)];
       how := Crashed TypeError |}.
Proof.
  reflexivity.
Qed.

Lemma mget_items_hashable (kv : dict) (keys : list value) :
  forallb hashable keys = true ->
  mget_items kv keys
  = Ok (map (fun k => match dict_get k kv with Some v => v | None => VNone end)
          keys).
Proof.
  induction keys as [|k t IH]; cbn [forallb mget_items map]; [reflexivity|].
  intros H. apply andb_true_iff in H as [-> Ht]. rewrite (IH Ht). reflexivity.
Qed.

(** C8 (as amended).  With an even number of arguments whose keys have a
    hash, [MSET] writes the pairs in order and returns their number: after
    it a key holds the value of the last pair that names it, the other
    keys what they held.  With keys that have a hash, [MGET] returns the
    list, in the order of the keys, of the value stored for each key or
    [None] for a key that is not in the store, and leaves the store as it
    is. *)
Theorem mset_mget_in_order (kv : dict) (items keys : list value) :
  Nat.even (length items) = true ->
  forallb hashable (map fst (pairs_of items)) = true ->
  forallb hashable keys = true ->
  let kv' := write_all kv (pairs_of items) in
  mset kv items = (Ok (VInt (Z.of_nat (length (pairs_of items)))), kv') /\
  length items = (2 * length (pairs_of items))%nat /\
  (forall k, dict_get k kv'
             = match dict_get k (rev (pairs_of items)) with
               | Some v => Some v
               | None => dict_get k kv
               end) /\
  mget kv keys
  = (Ok (VList (map (fun k => match dict_get k kv with
                              | Some v => v
                              | None => VNone
                              end) keys)), kv).
Proof.
  intros He Hh Hk kv'.
  assert (Ho : Nat.odd (length items) = false)
    by (rewrite <- Nat.negb_even, He; reflexivity).
  split; [|split; [|split]].
  - unfold mset. rewrite (mset_loop_hashable items kv 0 Hh), Ho. reflexivity.
  - rewrite (length_pairs_parity items) at 1. rewrite Ho. lia.
  - intros k. apply dict_get_write_all.
  - unfold mget. rewrite (mget_items_hashable kv keys Hk). reflexivity.
Qed.

Lemma mset_mget_in_order_witness :
  let a := VStr (lit "a") in
  let b := VStr (lit "b") in
  let c := VStr (lit "c") in
  let kv' := write_all [] (pairs_of [a; VInt 1; b; VInt 2]) in
  mset [] [a; VInt 1; b; VInt 2] = (Ok (VInt 2), kv') /\
  mget kv' [a; b; c] = (Ok (VList [VInt 1; VInt 2; VNone]), kv').
Proof.
  pose proof (mset_mget_in_order [] 
                [VStr (lit "a"); VInt 1; VStr (lit "b"); VInt 2] []
                eq_refl eq_refl eq_refl) as (M & _).
  pose proof (mset_mget_in_order
                (write_all [] (pairs_of [VStr (lit "a"); VInt 1;
                                         VStr (lit "b"); VInt 2]))
                [] [VStr (lit "a"); VStr (lit "b"); VStr (lit "c")]
                eq_refl eq_refl eq_refl) as (_ & _ & _ & G).
  split; [exact M|exact G].
Defined.

(** C8 fails as stated: an array is no key.  [MSET] with the two
    arguments [[], 1] and [MGET] with the argument [[]] raise [TypeError],
    and the session ends with nothing sent. *)
Lemma mset_mget_counterexample :
  session unchanged_above_ascii []
    (lit "*3" ++ CRLF ++ lit "$4" ++ CRLF ++ lit "MSET" ++ CRLF
     ++ lit "*0" ++ CRLF ++ lit ":1" ++ CRLF)
  = {| sent := []; store := []; how := Crashed TypeError |} /\
  session unchanged_above_ascii []
    (lit "*2" ++ CRLF ++ lit "$4" ++ CRLF ++ lit "MGET" ++ CRLF
     ++ lit "*0" ++ CRLF)
  = {| sent := []; store := []; how := Crashed TypeError |}.
Proof.
  split; reflexivity.
Qed.

(** The session of the example of [MSET] and [MGET]. *)
Example mset_mget_session :
  forall to_upper_full,
    session to_upper_full []
      (lit "*5" ++ CRLF ++ lit "$4" ++ CRLF ++ lit "MSET" ++ CRLF
       ++ lit "$1" ++ CRLF ++ lit "a" ++ CRLF ++ lit ":1" ++ CRLF
       ++ lit "$1" ++ CRLF ++ lit "b" ++ CRLF ++ lit ":2" ++ CRLF
       ++ lit "+MGET a b c" ++ CRLF)
    = {| sent := lit ":2" ++ CRLF ++ lit "*3" ++ CRLF ++ lit ":1" ++ CRLF
                 ++ lit ":2" ++ CRLF ++ lit "$-1" ++ CRLF;
         store := [(VStr (lit "a"), VInt 1); (VStr (lit "b"), VInt 2)];
         how := Closed |}.
Proof.
  intros tbl. reflexivity.
Qed.

(** C7, at the input where the code departs from it.  A key stored with
    the value [None] (SET with a null bulk string) is in the store;
    [DELETE] removes it and returns 0, not 1. *)
Theorem delete_none_value_returns_zero :
  forall to_upper_full,
    let k := VStr (lit "k") in
    dict_get k [(k, VNone)] = Some VNone /\
    delete [(k, VNone)] [k] = (Ok (VInt 0), []) /\
    session to_upper_full []
      (lit "*3" ++ CRLF ++ lit "$3" ++ CRLF ++ lit "SET" ++ CRLF
       ++ lit "$1" ++ CRLF ++ lit "k" ++ CRLF ++ lit "$-1" ++ CRLF
       ++ lit "*1" ++ CRLF ++ lit "$5" ++ CRLF ++ lit "FLUSH" ++ CRLF)
    = {| sent := lit ":1" ++ CRLF ++ lit ":1" ++ CRLF; store := [];
         how := Closed |} /\
    session to_upper_full []
      (lit "*3" ++ CRLF ++ lit "$3" ++ CRLF ++ lit "SET" ++ CRLF
       ++ lit "$1" ++ CRLF ++ lit "k" ++ CRLF ++ lit "$-1" ++ CRLF
       ++ lit "*2" ++ CRLF ++ lit "$6" ++ CRLF ++ lit "DELETE" ++ CRLF
       ++ lit "$1" ++ CRLF ++ lit "k" ++ CRLF)
    = {| sent := lit ":1" ++ CRLF ++ lit ":0" ++ CRLF; store := [];
         how := Closed |}.
Proof.
  intros tbl k. repeat split.
Qed.

(** C9.  [FLUSH] returns the number of entries of the store and leaves it
    empty; on an empty store it returns 0.  The name is looked up in upper
    case. *)
Theorem flush_returns_count (to_upper_full : Z -> list Z) (kv : dict) :
  get_response to_upper_full kv (VList [VStr (lit "FLUSH")])
  = (Ok (VInt (Z.of_nat (length kv))), []) /\
  get_response to_upper_full kv (VList [VBytes (lit "flush")])
  = (Ok (VInt (Z.of_nat (length kv))), []) /\
  flush kv [] = (Ok (VInt (Z.of_nat (length kv))), []) /\
  flush [] [] = (Ok (VInt 0), []).
Proof.
  repeat split.
Qed.

(** * Further properties of the code *)

(** ** The store commands *)

Lemma dict_get_absent (k : value) (d : dict) :
  existsb (key_eqb k) (map fst d) = false -> dict_get k d = None.
Proof.
  induction d as [|[k0 v0] d IH]; cbn [map fst existsb dict_get];
    [reflexivity|].
  intros H. apply orb_false_iff in H as [-> H]. exact (IH H).
Qed.

Lemma dict_get_remove_same (k : value) (d : dict) :
  dict_wf d = true -> dict_get k (dict_remove k d) = None.
Proof.
  induction d as [|[k0 v0] d IH]; cbn [dict_wf dict_remove]; [reflexivity|].
  intros H. apply andb_true_iff in H as [H Hd].
  apply andb_true_iff in H as [_ Hn]. apply negb_true_iff in Hn.
  destruct (key_eqb k k0) eqn:E.
  - apply key_eqb_true in E as ->. apply dict_get_absent. exact Hn.
  - cbn [dict_get]. rewrite E. exact (IH Hd).
Qed.

Lemma dict_get_remove_other (k k' : value) (d : dict) :
  key_eqb k' k = false -> dict_get k' (dict_remove k d) = dict_get k' d.
Proof.
  intros Hk. induction d as [|[k0 v0] d IH]; cbn [dict_remove]; [reflexivity|].
  destruct (key_eqb k k0) eqn:E; cbn [dict_get].
  - apply key_eqb_true in E as <-. rewrite Hk. reflexivity.
  - rewrite IH. reflexivity.
Qed.

Lemma dict_remove_keys (a k : value) (d : dict) :
  existsb (key_eqb a) (map fst d) = false ->
  existsb (key_eqb a) (map fst (dict_remove k d)) = false.
Proof.
  induction d as [|[k0 v0] d IH]; cbn [dict_remove map fst existsb]; [auto|].
  intros H. apply orb_false_iff in H as [H0 H].
  destruct (key_eqb k k0); [exact H|].
  cbn [map fst existsb]. rewrite H0, (IH H). reflexivity.
Qed.

Lemma dict_remove_wf (k : value) (d : dict) :
  dict_wf d = true -> dict_wf (dict_remove k d) = true.
Proof.
  induction d as [|[k0 v0] d IH]; cbn [dict_wf dict_remove]; [auto|].
  intros H. apply andb_true_iff in H as [H Hd].
  apply andb_true_iff in H as [Hh Hn]. apply negb_true_iff in Hn.
  destruct (key_eqb k k0); [exact Hd|].
  cbn [dict_wf]. rewrite Hh, (dict_remove_keys k0 k d Hn), (IH Hd).
  reflexivity.
Qed.

Lemma dict_remove_absent (k : value) (d : dict) :
  dict_get k d = None -> dict_remove k d = d.
Proof.
  induction d as [|[k0 v0] d IH]; cbn [dict_get dict_remove]; [reflexivity|].
  destruct (key_eqb k k0); [discriminate|].
  intros H. rewrite (IH H). reflexivity.
Qed.

Lemma dict_remove_length (k v : value) (d : dict) :
  dict_get k d = Some v -> S (length (dict_remove k d)) = length d.
Proof.
  induction d as [|[k0 v0] d IH]; cbn [dict_get dict_remove]; [discriminate|].
  destruct (key_eqb k k0); [reflexivity|].
  intros H. cbn [length]. rewrite (IH H). reflexivity.
Qed.

(** SET then GET: [set] returns 1 and the key then holds the value; the
    other keys answer as before. *)
Theorem set_then_get (kv : dict) (k v : value) :
  hashable k = true ->
  set kv [k; v] = (Ok (VInt 1), dict_set k v kv) /\
  get (dict_set k v kv) [k] = (Ok v, dict_set k v kv) /\
  (forall k', k' <> k ->
     fst (get (dict_set k v kv) [k']) = fst (get kv [k'])).
Proof.
  intros Hk. unfold set, get. rewrite Hk. split; [reflexivity|]. split.
  - rewrite dict_get_set, (key_eqb_refl k Hk). reflexivity.
  - intros k' Hne. destruct (hashable k') eqn:Hk'; [|reflexivity].
    cbn [fst]. rewrite dict_get_set.
    destruct (key_eqb k' k) eqn:E; [|reflexivity].
    apply key_eqb_true in E. contradiction.
Qed.

Lemma set_then_get_witness :
  let kv := [(VStr (lit "a"), VInt 1)] in
  let kv' := dict_set (VStr (lit "a")) (VBytes [255]) kv in
  kv' = [(VStr (lit "a"), VBytes [255])] /\
  set kv [VStr (lit "a"); VBytes [255]] = (Ok (VInt 1), kv') /\
  get kv' [VStr (lit "a")] = (Ok (VBytes [255]), kv') /\
  (forall k', k' <> VStr (lit "a") ->
     fst (get kv' [k']) = fst (get kv [k'])).
Proof.
  split; [reflexivity|].
  exact (set_then_get [(VStr (lit "a"), VInt 1)] (VStr (lit "a"))
           (VBytes [255]) eq_refl).
Defined.

(** DELETE of a key stored with a value other than [None] returns 1 and
    takes that entry, and no other, out of the store; after it GET of the
    key returns [None] and a second DELETE returns 0. *)
Theorem delete_stored (kv : dict) (k v : value) :
  hashable k = true ->
  dict_wf kv = true ->
  dict_get k kv = Some v ->
  v <> VNone ->
  let kv' := dict_remove k kv in
  delete kv [k] = (Ok (VInt 1), kv') /\
  get kv' [k] = (Ok VNone, kv') /\
  delete kv' [k] = (Ok (VInt 0), kv') /\
  S (length kv') = length kv /\
  (forall k', k' <> k -> dict_get k' kv' = dict_get k' kv).
Proof.
  intros Hk Hwf Hg Hv kv'.
  assert (G' : dict_get k kv' = None) by (apply dict_get_remove_same; exact Hwf).
  unfold delete, get. rewrite Hk, Hg, G'.
  split; [destruct v; try reflexivity; congruence|]. split; [reflexivity|].
  split; [rewrite (dict_remove_absent k kv' G'); reflexivity|].
  split; [exact (dict_remove_length k v kv Hg)|].
  intros k' Hne. apply dict_get_remove_other.
  destruct (key_eqb k' k) eqn:E; [|reflexivity].
  apply key_eqb_true in E. contradiction.
Qed.

Lemma delete_stored_witness :
  let a := VStr (lit "a") in
  let kv := [(a, VInt 1); (VInt 7, VStr (lit "x"))] in
  let kv' := dict_remove a kv in
  kv' = [(VInt 7, VStr (lit "x"))] /\
  delete kv [a] = (Ok (VInt 1), kv') /\
  get kv' [a] = (Ok VNone, kv') /\
  delete kv' [a] = (Ok (VInt 0), kv') /\
  S (length kv') = length kv /\
  (forall k', k' <> a -> dict_get k' kv' = dict_get k' kv).
Proof.
  split; [reflexivity|].
  apply (delete_stored [(VStr (lit "a"), VInt 1); (VInt 7, VStr (lit "x"))]
           (VStr (lit "a")) (VInt 1)); try reflexivity; discriminate.
Defined.

(** DELETE and GET of a key that is not in the store: 0 and [None], and
    the store is as it was. *)
Theorem delete_absent (kv : dict) (k : value) :
  hashable k = true ->
  dict_get k kv = None ->
  delete kv [k] = (Ok (VInt 0), kv) /\ get kv [k] = (Ok VNone, kv).
Proof.
  intros Hk Hg. unfold delete, get.
  rewrite Hk, Hg, (dict_remove_absent k kv Hg). split; reflexivity.
Qed.

Lemma delete_absent_witness :
  let kv := [(VStr (lit "a"), VInt 1)] in
  delete kv [VInt 1] = (Ok (VInt 0), kv) /\ get kv [VInt 1] = (Ok VNone, kv).
Proof.
  exact (delete_absent [(VStr (lit "a"), VInt 1)] (VInt 1) eq_refl eq_refl).
Defined.

(** ** The store invariant *)

Lemma mset_loop_wf (items : list value) :
  forall kv count,
    dict_wf kv = true -> dict_wf (snd (mset_loop kv count items)) = true.
Proof.
  assert (H : forall n (l : list value), (length l <= n)%nat ->
    forall kv count, dict_wf kv = true ->
      dict_wf (snd (mset_loop kv count l)) = true).
  { induction n as [|n IH]; intros [|k [|v l]] Hl kv count Hwf;
      cbn [length] in Hl; try lia; cbn [mset_loop snd]; try exact Hwf.
    destruct (hashable k) eqn:Hk; [|exact Hwf].
    apply IH; [lia|]. apply dict_set_wf; assumption. }
  intros kv count. apply (H (length items)). lia.
Qed.

Lemma commands_keep_wf (name : str) (h : handler) :
  lookup_command name get_commands = Some h ->
  forall kv args, dict_wf kv = true -> dict_wf (snd (h kv args)) = true.
Proof.
  unfold get_commands. cbn [lookup_command].
  repeat match goal with
  | |- context [if ?b then _ else _] => destruct b
  end; intros E; inversion E; subst; intros kv args Hwf.
  - unfold get. destruct args as [|k [|? ?]]; try exact Hwf.
    destruct (hashable k); exact Hwf.
  - unfold set. destruct args as [|k [|v [|? ?]]]; try exact Hwf.
    destruct (hashable k) eqn:Hk; [|exact Hwf].
    cbn [snd]. apply dict_set_wf; assumption.
  - unfold delete. destruct args as [|k [|? ?]]; try exact Hwf.
    destruct (hashable k); [|exact Hwf].
    cbn [snd]. apply dict_remove_wf; assumption.
  - unfold flush. destruct args; [reflexivity|exact Hwf].
  - exact Hwf.
  - apply mset_loop_wf. exact Hwf.
Qed.

Lemma get_response_keeps_wf (to_upper_full : Z -> list Z) (kv : dict)
    (data : value) :
  dict_wf kv = true ->
  dict_wf (snd (get_response to_upper_full kv data)) = true.
Proof.
  intros Hwf. unfold get_response.
  destruct (tokens data) as [[|cmd args]| |]; try exact Hwf.
  destruct (command_name to_upper_full cmd) as [name| |]; try exact Hwf.
  destruct (lookup_command name get_commands) as [h|] eqn:E; [|exact Hwf].
  apply (commands_keep_wf name h E). exact Hwf.
Qed.



(** ** The decoder reads a frame and no more *)

Lemma readline_split (s : bytes) :
  s = fst (readline s) ++ snd (readline s).
Proof.
  induction s as [|c s IH]; cbn [readline]; [reflexivity|].
  destruct (c =? 10); [reflexivity|].
  destruct (readline s) as [l r]. cbn [fst snd app] in *. congruence.
Qed.

Lemma line_handlers_prefix :
  reads_prefix handle_simple_string /\ reads_prefix handle_error /\
  reads_prefix handle_integer /\ reads_prefix handle_string.
Proof.
  unfold reads_prefix, handle_simple_string, handle_error, handle_integer,
    handle_string.
  repeat split; intros s v s'; pose proof (readline_split s) as L;
    destruct (readline s) as [line r]; cbn [fst snd] in L.
  - destruct (utf8_decode _); intros E; inversion E; subst; eauto.
  - destruct (utf8_decode _); intros E; inversion E; subst; eauto.
  - destruct (py_int _); cbn [bind]; intros E; inversion E; subst; eauto.
  - destruct (py_int _) as [n| |]; cbn [bind]; try discriminate.
    destruct (n =? -1); [intros E; inversion E; subst; eauto|].
    unfold read. destruct (n + 2 <? -1); [discriminate|].
    destruct (n + 2 =? -1); cbn [bind]; intros E; inversion E; subst.
    + exists (line ++ r). rewrite app_nil_r. reflexivity.
    + exists (line ++ firstn (Z.to_nat (n + 2)) r).
      rewrite <- app_assoc, firstn_skipn. reflexivity.
Qed.

Lemma read_items_prefix rec (num : nat) :
  reads_prefix rec ->
  forall s vs s', read_items rec num s = Ok (vs, s') -> exists p, s = p ++ s'.
Proof.
  intros Hrec. induction num as [|n IH]; intros s vs s'; cbn [read_items].
  - intros E; inversion E; subst. exists []. reflexivity.
  - destruct (rec s) as [[v s1]| |] eqn:E1; cbn [bind]; try discriminate.
    destruct (read_items rec n s1) as [[vs1 s2]| |] eqn:E2; cbn [bind];
      try discriminate.
    intros E; inversion E; subst.
    destruct (Hrec _ _ _ E1) as (p1 & ->). destruct (IH _ _ _ E2) as (p2 & ->).
    exists (p1 ++ p2). rewrite app_assoc. reflexivity.
Qed.

Lemma nested_handlers_prefix rec :
  reads_prefix rec ->
  reads_prefix (handle_array rec) /\ reads_prefix (handle_dict rec).
Proof.
  intros Hrec. unfold reads_prefix, handle_array, handle_dict.
  split; intros s v s'; pose proof (readline_split s) as L;
    destruct (readline s) as [line r]; cbn [fst snd] in L;
    (destruct (py_int _) as [n| |]; cbn [bind]; try discriminate).
  - destruct (read_items rec _ r) as [[vs s1]| |] eqn:E1; cbn [bind];
      try discriminate.
    intros E; inversion E; subst.
    destruct (read_items_prefix rec _ Hrec _ _ _ E1) as (p & ->).
    exists (line ++ p). rewrite app_assoc. reflexivity.
  - destruct (read_items rec _ r) as [[vs s1]| |] eqn:E1; cbn [bind];
      try discriminate.
    destruct (dict_of_pairs _ _); cbn [bind]; try discriminate.
    intros E; inversion E; subst.
    destruct (read_items_prefix rec _ Hrec _ _ _ E1) as (p & ->).
    exists (line ++ p). rewrite app_assoc. reflexivity.
Qed.

Lemma handle_request_prefix (fuel : nat) : reads_prefix (handle_request fuel).
Proof.
  destruct line_handlers_prefix as (H1 & H2 & H3 & H4).
  induction fuel as [|f IH]; intros s v s'; cbn [handle_request];
    [discriminate|].
  destruct (nested_handlers_prefix _ IH) as [H5 H6].
  destruct s as [|c t]; [discriminate|].
  repeat match goal with
  | |- context [if ?b then _ else _] => destruct b
  end; intros E;
    first [ apply H1 in E | apply H2 in E | apply H3 in E | apply H4 in E
          | apply H5 in E | apply H6 in E | discriminate ];
    destruct E as (p & ->); exists (c :: p); reflexivity.
Qed.

(** A decoded frame is a beginning of the stream, not empty, and what is
    given back is the stream after it: the decoder neither skips nor
    re-reads bytes. *)
Theorem decode_reads_prefix (s rest : bytes) (v : value) :
  decode s = Ok (v, rest) ->
  exists frame, frame <> [] /\ s = frame ++ rest.
Proof.
  intros D. destruct (handle_request_prefix _ _ _ _ D) as (p & E).
  exists p. split; [|exact E].
  intros ->. apply decode_consumes in D. cbn [app] in E. subst. lia.
Qed.

Lemma decode_reads_prefix_witness :
  exists frame, frame <> [] /\
    lit ":5" ++ CRLF ++ lit "+next" ++ CRLF = frame ++ (lit "+next" ++ CRLF).
Proof.
  exact (decode_reads_prefix (lit ":5" ++ CRLF ++ lit "+next" ++ CRLF)
           (lit "+next" ++ CRLF) (VInt 5) eq_refl).
Defined.

Lemma decode_frame_then_rest (v : value) (b rest : bytes) :
  roundtrips v = true ->
  _write v = Ok b ->
  decode (b ++ rest) = Ok (v, rest).
Proof.
  intros Hr E. destruct (reads_back_all v Hr) as (b' & E' & Hb).
  assert (b' = b) by congruence. subst b'.
  apply Hb. rewrite length_app. lia.
Qed.

(** The frame written for a value is read back in front of any other
    bytes, which are left in the stream: frames delimit themselves. *)
Theorem decode_stops_after_frame (v : value) (b rest : bytes) :
  roundtrips v = true ->
  _write v = Ok b ->
  decode (b ++ rest) = Ok (v, rest).
Proof.
  intros Hr E. unfold decode.
  destruct (reads_back_all v Hr) as (b' & E' & Hb).
  replace b' with b in Hb by congruence.
  apply Hb. rewrite length_app. apply Nat.lt_succ_r, Nat.le_add_r.
Qed.

Lemma decode_stops_after_frame_witness :
  decode ((lit "*2" ++ CRLF ++ lit "$1" ++ CRLF ++ lit "a" ++ CRLF
           ++ lit "$-1" ++ CRLF) ++ lit "garbage")
  = Ok (VList [VStr (lit "a"); VNone], lit "garbage").
Proof.
  exact (decode_stops_after_frame (VList [VStr (lit "a"); VNone])
           (lit "*2" ++ CRLF ++ lit "$1" ++ CRLF ++ lit "a" ++ CRLF
            ++ lit "$-1" ++ CRLF) (lit "garbage") eq_refl eq_refl).
Defined.

(** Two values that come back from the wire as they went never have the
    same frame. *)
Theorem write_injective (v1 v2 : value) (b : bytes) :
  roundtrips v1 = true -> roundtrips v2 = true ->
  _write v1 = Ok b -> _write v2 = Ok b -> v1 = v2.
Proof.
  intros R1 R2 E1 E2.
  pose proof (decode_frame_then_rest v1 b [] R1 E1) as D1.
  pose proof (decode_frame_then_rest v2 b [] R2 E2) as D2.
  congruence.
Qed.

Lemma write_injective_witness :
  VList [VInt 1; VNone] = VList [VInt 1; VNone].
Proof.
  exact (write_injective (VList [VInt 1; VNone]) (VList [VInt 1; VNone])
           (lit "*2" ++ CRLF ++ lit ":1" ++ CRLF ++ lit "$-1" ++ CRLF)
           eq_refl eq_refl eq_refl eq_refl).
Defined.

(** The encoder never writes a simple string: the frame of a value starts
    with [$] for text, bytes and [None], [:] for an integer, [-] for an
    error, [*] for a list and [%] for a dict. *)
Theorem write_tags (v : value) (b : bytes) :
  _write v = Ok b ->
  exists t,
    b = (match v with
         | VStr _ | VBytes _ | VNone => 36
         | VInt _ => 58
         | VError _ => 45
         | VList _ => 42
         | VDict _ => 37
         end) :: t.
Proof.
  destruct v; cbn [_write]; intros E.
  - destruct (utf8_encode s); inversion E. unfold bulk. eauto.
  - inversion E. unfold bulk. eauto.
  - inversion E. eauto.
  - destruct (utf8_encode message); inversion E. eauto.
  - inversion E. eexists. reflexivity.
  - destruct (write_items _write l); inversion E. eauto.
  - destruct (write_pairs _write d); inversion E. eauto.
Qed.

Lemma write_tags_witness :
  exists t, lit "$2" ++ CRLF ++ lit "hi" ++ CRLF = 36 :: t.
Proof.
  exact (write_tags (VStr (lit "hi")) (lit "$2" ++ CRLF ++ lit "hi" ++ CRLF)
           eq_refl).
Defined.

(** A simple string frame is read as text, up to the end of its line; the
    encoder sends the same text back as a bulk string. *)
Theorem simple_string_decodes (fuel : nat) (s : str) (b rest : bytes) :
  utf8_encode s = Some b ->
  line_safe s = true ->
  handle_request (S fuel) (43 :: b ++ CRLF ++ rest) = Ok (VStr s, rest) /\
  _write (VStr s) = Ok (bulk b).
Proof.
  intros E H. destruct (line_safe_bytes s b E H) as [Hlf Hr]. split.
  - change (handle_request (S fuel) (43 :: ?x)) with (handle_simple_string x).
    unfold handle_simple_string. rewrite (readline_line b rest Hlf).
    rewrite rstrip_crlf_line, Hr, (utf8_decode_encode s b E). reflexivity.
  - cbn [_write]. rewrite E. reflexivity.
Qed.

Lemma simple_string_decodes_witness :
  handle_request 1 (43 :: lit "OK" ++ CRLF ++ lit ":1" ++ CRLF)
  = Ok (VStr (lit "OK"), lit ":1" ++ CRLF) /\
  _write (VStr (lit "OK")) = Ok (bulk (lit "OK")).
Proof.
  exact (simple_string_decodes 0 (lit "OK") (lit "OK") (lit ":1" ++ CRLF)
           eq_refl eq_refl).
Defined.

(** A count that is zero or negative gives an empty list or an empty
    dict, and nothing is read after the count line. *)
Theorem nonpositive_count_is_empty (fuel : nat) (num : Z) (rest : bytes) :
  num <= 0 ->
  handle_request (S fuel) (42 :: fmt_d num ++ CRLF ++ rest)
  = Ok (VList [], rest) /\
  handle_request (S fuel) (37 :: fmt_d num ++ CRLF ++ rest)
  = Ok (VDict [], rest).
Proof.
  intros Hn.
  change (handle_request (S fuel) (42 :: ?x))
    with (handle_array (handle_request fuel) x).
  change (handle_request (S fuel) (37 :: ?x))
    with (handle_dict (handle_request fuel) x).
  unfold handle_array, handle_dict.
  destruct (read_int_line num rest) as [-> ->]. cbn [bind].
  replace (Z.to_nat num) with 0%nat by lia.
  replace (Z.to_nat (num * 2)) with 0%nat by lia.
  split; reflexivity.
Qed.

Lemma nonpositive_count_is_empty_witness :
  handle_request 1 (42 :: fmt_d (-3) ++ CRLF ++ lit ":1" ++ CRLF)
  = Ok (VList [], lit ":1" ++ CRLF) /\
  handle_request 1 (37 :: fmt_d (-3) ++ CRLF ++ lit ":1" ++ CRLF)
  = Ok (VDict [], lit ":1" ++ CRLF).
Proof.
  exact (nonpositive_count_is_empty 0 (-3) (lit ":1" ++ CRLF)
           (proj1 (Z.leb_le (-3) 0) eq_refl)).
Defined.

(** ** Requests the router refuses *)

Lemma split_ws_blank (sp : Z -> bool) (l : list Z) :
  forallb sp l = true -> split_ws sp [] l = [].
Proof.
  induction l as [|c l IH]; cbn [forallb split_ws]; [reflexivity|].
  intros H. apply andb_true_iff in H as [-> H]. exact (IH H).
Qed.

Lemma blank_tokens (data : value) : blank data = true -> tokens data = Ok [].
Proof.
  destruct data as [s|b|n|m| |[|x l]|d]; cbn [blank tokens];
    try discriminate; intros H.
  - unfold str_split. rewrite (split_ws_blank _ s H). reflexivity.
  - unfold bytes_split. rewrite (split_ws_blank _ b H). reflexivity.
  - reflexivity.
Qed.

Section RouterFacts.
Variable to_upper_full : Z -> list Z.

(** A request without a command name (an empty array, an empty string or
    one of white space) is answered with the error [Missing command]; the
    store is untouched and the session goes on. *)
Theorem missing_command_answered (kv : dict) (s rest : bytes) (data : value) :
  decode s = Ok (data, rest) ->
  blank data = true ->
  session to_upper_full kv s
  = send_then (lit "-Missing command" ++ CRLF) (session to_upper_full kv rest).
Proof.
  intros D B.
  apply (command_error_answered to_upper_full kv kv s rest data
           (lit "Missing command") (lit "Missing command") D);
    [|reflexivity].
  unfold get_response. rewrite (blank_tokens data B). reflexivity.
Qed.

(** A request that is an integer, [None], an error or a dict is answered
    with the error [Request must be list or simple string]; the store is
    untouched and the session goes on. *)
Theorem unsplittable_request_answered (kv : dict) (s rest : bytes)
    (data : value) :
  decode s = Ok (data, rest) ->
  has_no_split data = true ->
  session to_upper_full kv s
  = send_then (lit "-Request must be list or simple string" ++ CRLF)
      (session to_upper_full kv rest).
Proof.
  intros D B.
  apply (command_error_answered to_upper_full kv kv s rest data
           (lit "Request must be list or simple string")
           (lit "Request must be list or simple string") D);
    [|reflexivity].
  destruct data as [?|?|?|?| |[|? ?]|?]; try discriminate; reflexivity.
Qed.

(** A command name that is no text ends the session: [AttributeError]
    for a name that is an integer, [None], an error, a list or a dict,
    [UnicodeDecodeError] for bytes that are not UTF-8.  Nothing is sent
    and the store is untouched. *)
Theorem non_text_command_ends_session (kv : dict) (s rest : bytes)
    (data cmd : value) (args : list value) :
  decode s = Ok (data, rest) ->
  tokens data = Ok (cmd :: args) ->
  (forall t, cmd <> VStr t) ->
  (forall b t, cmd = VBytes b -> utf8_decode b <> Some t) ->
  exists e,
    (e = AttributeError \/ e = UnicodeDecodeError) /\
    session to_upper_full kv s
    = {| sent := []; store := kv; how := Crashed e |}.
Proof.
  intros D T NS NB.
  assert (C : exists e, (e = AttributeError \/ e = UnicodeDecodeError) /\
                        command_name to_upper_full cmd = Raise e).
  { destruct cmd as [t|b|?|?| |?|?]; cbn [command_name]; eauto.
    - destruct (NS t eq_refl).
    - destruct (utf8_decode b) as [t|] eqn:E; [|eauto].
      destruct (NB b t eq_refl E). }
  destruct C as (e & He & C). exists e. split; [exact He|].
  apply (handler_fault_ends_session to_upper_full kv kv s rest data e D).
  - unfold get_response. rewrite T, C. reflexivity.
  - intros msg. destruct He as [->| ->]; discriminate.
Qed.

(** GET, SET, DELETE and FLUSH called with a number of arguments other
    than 1, 2, 1 and 0 raise [TypeError]: the session ends, nothing is
    sent and the store is untouched. *)
Theorem wrong_arity_ends_session (kv : dict) (s rest : bytes)
    (data cmd : value) (args : list value) (name : str) :
  decode s = Ok (data, rest) ->
  tokens data = Ok (cmd :: args) ->
  command_name to_upper_full cmd = Ok name ->
  wrong_arity name (length args) = true ->
  session to_upper_full kv s
  = {| sent := []; store := kv; how := Crashed TypeError |}.
Proof.
  intros D T C W.
  apply (handler_fault_ends_session to_upper_full kv kv s rest data
           TypeError D); [|discriminate].
  unfold get_response. rewrite T, C.
  unfold wrong_arity in W.
  repeat (apply orb_true_iff in W as [W|W]);
    apply andb_true_iff in W as [N A]; apply str_eqb_eq in N; subst name;
    apply negb_true_iff, Nat.eqb_neq in A; cbn.
  - destruct args as [|k [|? ?]]; try reflexivity. cbn in A. lia.
  - destruct args as [|k [|v [|? ?]]]; try reflexivity. cbn in A. lia.
  - destruct args as [|k [|? ?]]; try reflexivity. cbn in A. lia.
  - destruct args as [|? ?]; try reflexivity. cbn in A. lia.
Qed.

Lemma session_turn_on_frame (kv kv' : dict) (v : value)
    (b rest out : bytes) :
  roundtrips v = true ->
  _write v = Ok b ->
  respond to_upper_full kv v = (Ok out, kv') ->
  session to_upper_full kv (b ++ rest)
  = send_then out (session to_upper_full kv' rest).
Proof.
  intros Hr E R.
  rewrite session_turn, (decode_frame_then_rest v b rest Hr E), R.
  reflexivity.
Qed.

(** One request after the other: the frame of a request followed by more
    input is answered, and the session goes on with what follows, on the
    store the handler left. *)
Theorem session_answers_in_order (kv kv' : dict) (v : value)
    (b rest out : bytes) :
  roundtrips v = true ->
  _write v = Ok b ->
  respond to_upper_full kv v = (Ok out, kv') ->
  session to_upper_full kv (b ++ rest)
  = send_then out (session to_upper_full kv' rest).
Proof.
  intros Hr E R. rewrite session_turn.
  replace (decode (b ++ rest)) with (Ok (v, rest))
    by (symmetry; apply decode_frame_then_rest; assumption).
  rewrite R. reflexivity.
Qed.
End RouterFacts.

Lemma missing_command_answered_witness :
  session unchanged_above_ascii [] (lit "+   " ++ CRLF ++ lit ":1" ++ CRLF)
  = send_then (lit "-Missing command" ++ CRLF)
      (session unchanged_above_ascii [] (lit ":1" ++ CRLF)).
Proof.
  exact (missing_command_answered unchanged_above_ascii []
           (lit "+   " ++ CRLF ++ lit ":1" ++ CRLF) (lit ":1" ++ CRLF)
           (VStr (lit "   ")) eq_refl eq_refl).
Defined.

Lemma unsplittable_request_answered_witness :
  session unchanged_above_ascii [] (lit ":42" ++ CRLF ++ lit "$-1" ++ CRLF)
  = send_then (lit "-Request must be list or simple string" ++ CRLF)
      (session unchanged_above_ascii [] (lit "$-1" ++ CRLF)).
Proof.
  exact (unsplittable_request_answered unchanged_above_ascii []
           (lit ":42" ++ CRLF ++ lit "$-1" ++ CRLF) (lit "$-1" ++ CRLF)
           (VInt 42) eq_refl eq_refl).
Defined.

Lemma non_text_command_ends_session_witness :
  exists e,
    (e = AttributeError \/ e = UnicodeDecodeError) /\
    session unchanged_above_ascii []
      (lit "*2" ++ CRLF ++ lit ":7" ++ CRLF ++ lit "$1" ++ CRLF
       ++ lit "k" ++ CRLF)
    = {| sent := []; store := []; how := Crashed e |}.
Proof.
  apply (non_text_command_ends_session unchanged_above_ascii []
           (lit "*2" ++ CRLF ++ lit ":7" ++ CRLF ++ lit "$1" ++ CRLF
            ++ lit "k" ++ CRLF) []
           (VList [VInt 7; VStr (lit "k")]) (VInt 7) [VStr (lit "k")]
           eq_refl eq_refl); discriminate.
Defined.

Lemma wrong_arity_ends_session_witness :
  session unchanged_above_ascii [(VStr (lit "a"), VInt 1)]
    (lit "+get" ++ CRLF)
  = {| sent := []; store := [(VStr (lit "a"), VInt 1)];
       how := Crashed TypeError |}.
Proof.
  exact (wrong_arity_ends_session unchanged_above_ascii
           [(VStr (lit "a"), VInt 1)] (lit "+get" ++ CRLF) []
           (VStr (lit "get")) (VStr (lit "get")) [] (lit "GET")
           eq_refl eq_refl eq_refl eq_refl).
Defined.

Lemma session_answers_in_order_witness :
  let req := VList [VStr (lit "SET"); VStr (lit "k"); VInt 5] in
  session unchanged_above_ascii []
    ((lit "*3" ++ CRLF ++ lit "$3" ++ CRLF ++ lit "SET" ++ CRLF
      ++ lit "$1" ++ CRLF ++ lit "k" ++ CRLF ++ lit ":5" ++ CRLF)
     ++ lit "+GET k" ++ CRLF)
  = send_then (lit ":1" ++ CRLF)
      (session unchanged_above_ascii [(VStr (lit "k"), VInt 5)]
         (lit "+GET k" ++ CRLF)).
Proof.
  exact (session_answers_in_order unchanged_above_ascii []
           [(VStr (lit "k"), VInt 5)]
           (VList [VStr (lit "SET"); VStr (lit "k"); VInt 5])
           (lit "*3" ++ CRLF ++ lit "$3" ++ CRLF ++ lit "SET" ++ CRLF
            ++ lit "$1" ++ CRLF ++ lit "k" ++ CRLF ++ lit ":5" ++ CRLF)
           (lit "+GET k" ++ CRLF) (lit ":1" ++ CRLF)
           eq_refl eq_refl eq_refl).
Defined.

(** ** The end of the stream *)

Lemma read_items_app rec (a b : nat) :
  forall s,
    read_items rec (a + b) s
    = ('(vs1, s1) <- read_items rec a s ;;
       '(vs2, s2) <- read_items rec b s1 ;;
       Ok (vs1 ++ vs2, s2)).
Proof.
  induction a as [|a IH]; intros s; cbn [Nat.add read_items bind].
  - destruct (read_items rec b s) as [[vs2 s2]| |]; reflexivity.
  - destruct (rec s) as [[v s1]| |]; cbn [bind]; try reflexivity.
    rewrite IH.
    destruct (read_items rec a s1) as [[vs1 s2]| |]; cbn [bind];
      try reflexivity.
    destruct (read_items rec b s2) as [[vs2 s3]| |]; reflexivity.
Qed.

(** A stream that ends inside an array, after some of its items, is a
    peer that went away: the decoder raises [Disconnect] from the item it
    cannot start, and the session closes without a word. *)
Theorem truncated_array_closes (to_upper_full : Z -> list Z) (kv : dict)
    (l : list value) (body : bytes) (num : Z) :
  forallb roundtrips l = true ->
  write_items _write l = Ok body ->
  Z.of_nat (length l) < num ->
  decode (42 :: fmt_d num ++ CRLF ++ body) = Raise Disconnect /\
  session to_upper_full kv (42 :: fmt_d num ++ CRLF ++ body)
  = {| sent := []; store := kv; how := Closed |}.
Proof.
  intros Hr E Hn.
  assert (D : decode (42 :: fmt_d num ++ CRLF ++ body) = Raise Disconnect).
  { unfold decode. set (f := length (42 :: fmt_d num ++ CRLF ++ body)).
    change (handle_request (S f) (42 :: ?x))
      with (handle_array (handle_request f) x).
    unfold handle_array.
    pose proof (read_int_line num body) as [R P]. rewrite R, P. cbn [bind].
    destruct (read_items_written l) as (body' & E' & Hb).
    { apply Forall_forall. intros v _. apply reads_back_all. }
    { exact Hr. }
    assert (body' = body) by congruence. subst body'.
    replace (Z.to_nat num)
      with (length l + S (Z.to_nat num - length l - 1))%nat by lia.
    rewrite read_items_app.
    specialize (Hb f []). rewrite app_nil_r in Hb. rewrite Hb.
    - reflexivity.
    - subst f. cbn [length]. rewrite !length_app. lia. }
  split; [exact D|]. rewrite session_turn, D. reflexivity.
Qed.

Lemma truncated_array_closes_witness :
  decode (42 :: fmt_d 3 ++ CRLF ++ lit "$3" ++ CRLF ++ lit "GET" ++ CRLF)
  = Raise Disconnect /\
  session unchanged_above_ascii []
    (42 :: fmt_d 3 ++ CRLF ++ lit "$3" ++ CRLF ++ lit "GET" ++ CRLF)
  = {| sent := []; store := []; how := Closed |}.
Proof.
  exact (truncated_array_closes unchanged_above_ascii []
           [VStr (lit "GET")] (lit "$3" ++ CRLF ++ lit "GET" ++ CRLF) 3
           eq_refl eq_refl eq_refl).
Defined.



(** ** Command names *)

Lemma str_upper_ascii (to_upper_full : Z -> list Z) (s : str) :
  forallb (fun c => c <? 128) s = true ->
  str_upper to_upper_full (str_upper to_upper_full s)
  = str_upper to_upper_full s /\
  forallb (fun c => c <? 128) (str_upper to_upper_full s) = true.
Proof.
  induction s as [|c s IH]; cbn [forallb]; [split; reflexivity|].
  intros H. apply andb_true_iff in H as [Hc Hs].
  destruct (IH Hs) as [IH1 IH2]. unfold str_upper in *.
  cbn [flat_map]. rewrite Hc. cbn [app flat_map forallb].
  rewrite IH1, IH2.
  apply Z.ltb_lt in Hc.
  destruct ((97 <=? c) && (c <=? 122)) eqn:E.
  - apply andb_true_iff in E as [E1 E2]. apply Z.leb_le in E1, E2.
    replace (c - 32 <? 128) with true by (symmetry; apply Z.ltb_lt; lia).
    replace ((97 <=? c - 32) && (c - 32 <=? 122)) with false
      by (symmetry; apply andb_false_iff; left; apply Z.leb_gt; lia).
    split; reflexivity.
  - replace (c <? 128) with true by (symmetry; apply Z.ltb_lt; lia).
    rewrite E. split; reflexivity.
Qed.

(** Command names do not depend on case, nor on being sent as text or as
    bytes: a request whose name is ASCII is dispatched as the request with
    the name in upper case, and a name in bytes as the text it decodes
    to. *)
Theorem command_name_any_case (to_upper_full : Z -> list Z) (kv : dict)
    (name : str) (b : bytes) (args : list value) :
  forallb (fun c => c <? 128) name = true ->
  utf8_decode b = Some name ->
  get_response to_upper_full kv (VList (VStr name :: args))
  = get_response to_upper_full kv
      (VList (VStr (str_upper to_upper_full name) :: args)) /\
  get_response to_upper_full kv (VList (VBytes b :: args))
  = get_response to_upper_full kv (VList (VStr name :: args)).
Proof.
  intros Ha Hb. destruct (str_upper_ascii to_upper_full name Ha) as [I _].
  unfold get_response. cbn [tokens command_name]. rewrite I, Hb.
  split; reflexivity.
Qed.

Lemma command_name_any_case_witness :
  let kv := [(VStr (lit "k"), VInt 9)] in
  get_response unchanged_above_ascii kv (VList [VStr (lit "gEt"); VStr (lit "k")])
  = get_response unchanged_above_ascii kv
      (VList [VStr (str_upper unchanged_above_ascii (lit "gEt")); VStr (lit "k")]) /\
  get_response unchanged_above_ascii kv
    (VList [VBytes (lit "gEt"); VStr (lit "k")])
  = get_response unchanged_above_ascii kv
      (VList [VStr (lit "gEt"); VStr (lit "k")]).
Proof.
  exact (command_name_any_case unchanged_above_ascii
           [(VStr (lit "k"), VInt 9)] (lit "gEt") (lit "gEt")
           [VStr (lit "k")] eq_refl eq_refl).
Defined.

(** ** A value stored and read over the wire *)

(** A client that sends SET with a key and a value, then GET with the
    key, receives [:1] and then the frame of the value, as [_write] makes
    it; the session goes on with the key in the store. *)
Theorem set_get_over_the_wire (to_upper_full : Z -> list Z) (kv : dict)
    (k v : value) (bset bget bv rest : bytes) :
  hashable k = true ->
  roundtrips k = true ->
  roundtrips v = true ->
  _write (VList [VStr (lit "SET"); k; v]) = Ok bset ->
  _write (VList [VStr (lit "GET"); k]) = Ok bget ->
  _write v = Ok bv ->
  session to_upper_full kv (bset ++ bget ++ rest)
  = send_then (lit ":1" ++ CRLF)
      (send_then bv (session to_upper_full (dict_set k v kv) rest)).
Proof.
  intros Hk Rk Rv Es Eg Ev.
  rewrite (session_turn_on_frame to_upper_full kv (dict_set k v kv)
             (VList [VStr (lit "SET"); k; v]) bset (bget ++ rest)
             (lit ":1" ++ CRLF)); [|cbn; rewrite Rk, Rv; reflexivity|exact Es|].
  - f_equal.
    apply (session_turn_on_frame to_upper_full (dict_set k v kv)
             (dict_set k v kv) (VList [VStr (lit "GET"); k]) bget rest bv);
      [cbn; rewrite Rk; reflexivity|exact Eg|].
    unfold respond, get_response. cbn [tokens command_name].
    change (lookup_command _ get_commands) with (Some get).
    unfold get. rewrite Hk, dict_get_set, (key_eqb_refl k Hk).
    cbn [bind]. unfold write_response. rewrite Ev. reflexivity.
  - unfold respond, get_response. cbn [tokens command_name].
    change (lookup_command _ get_commands) with (Some set).
    unfold set. rewrite Hk. reflexivity.
Qed.

Lemma set_get_over_the_wire_witness :
  session unchanged_above_ascii []
    ((lit "*3" ++ CRLF ++ lit "$3" ++ CRLF ++ lit "SET" ++ CRLF
      ++ lit "$1" ++ CRLF ++ lit "k" ++ CRLF
      ++ lit "*2" ++ CRLF ++ lit ":1" ++ CRLF ++ lit "$-1" ++ CRLF)
     ++ (lit "*2" ++ CRLF ++ lit "$3" ++ CRLF ++ lit "GET" ++ CRLF
         ++ lit "$1" ++ CRLF ++ lit "k" ++ CRLF)
     ++ [])
  = send_then (lit ":1" ++ CRLF)
      (send_then (lit "*2" ++ CRLF ++ lit ":1" ++ CRLF ++ lit "$-1" ++ CRLF)
         (session unchanged_above_ascii
            (dict_set (VStr (lit "k")) (VList [VInt 1; VNone]) []) [])).
Proof.
  exact (set_get_over_the_wire unchanged_above_ascii []
           (VStr (lit "k")) (VList [VInt 1; VNone])
           (lit "*3" ++ CRLF ++ lit "$3" ++ CRLF ++ lit "SET" ++ CRLF
            ++ lit "$1" ++ CRLF ++ lit "k" ++ CRLF
            ++ lit "*2" ++ CRLF ++ lit ":1" ++ CRLF ++ lit "$-1" ++ CRLF)
           (lit "*2" ++ CRLF ++ lit "$3" ++ CRLF ++ lit "GET" ++ CRLF
            ++ lit "$1" ++ CRLF ++ lit "k" ++ CRLF)
           (lit "*2" ++ CRLF ++ lit ":1" ++ CRLF ++ lit "$-1" ++ CRLF) []
           eq_refl eq_refl eq_refl eq_refl eq_refl eq_refl).
Defined.

(** ** What is decoded can be encoded *)

Lemma utf8_decode_scalar (b : bytes) :
  forall s, utf8_decode b = Some s -> forallb is_scalar s = true.
Proof.
  assert (H : forall n b, (length b <= n)%nat ->
    forall s, utf8_decode b = Some s -> forallb is_scalar s = true).
  { induction n as [|n IH]; intros [|b0 t0] Hl s; cbn [length] in Hl;
      try lia; cbn [utf8_decode];
      try (intros E; injection E as <-; reflexivity).
    assert (Rec : forall c t, (length t <= n)%nat -> is_scalar c = true ->
      option_map (cons c) (utf8_decode t) = Some s ->
      forallb is_scalar s = true).
    { intros c t Ht Hc. destruct (utf8_decode t) as [s'|] eqn:E; [|discriminate].
      intros E'; injection E' as <-. cbn [forallb].
      rewrite Hc, (IH t Ht s' E). reflexivity. }
    unfold is_cont, is_surrogate, is_scalar in *.
    destruct (Z.leb_spec 0 b0), (Z.ltb_spec b0 128); cbn [andb].
    1: { apply Rec; [lia|]. zbool; reflexivity. }
    all: destruct (Z.leb_spec 194 b0), (Z.ltb_spec b0 224); cbn [andb];
      try (destruct t0 as [|b1 t1]; [discriminate|];
           destruct (Z.leb_spec 128 b1), (Z.ltb_spec b1 192); cbn [andb];
           try discriminate; apply Rec; [cbn [length] in Hl; lia|];
           zbool; reflexivity).
    all: destruct (Z.leb_spec 224 b0), (Z.ltb_spec b0 240); cbn [andb];
      try (destruct t0 as [|b1 [|b2 t2]]; try discriminate;
           match goal with
           | |- (if ?c then _ else _) = _ -> _ =>
               destruct c eqn:C; [|discriminate]
           end;
           repeat (apply andb_true_iff in C as [C ?]);
           apply Rec; [cbn [length] in Hl; lia|];
           repeat match goal with
           | H : negb _ = true |- _ => apply negb_true_iff in H
           | H : _ && _ = true |- _ => apply andb_true_iff in H as [? ?]
           | H : _ && _ = false |- _ => apply andb_false_iff in H
           | H : (_ <=? _) = true |- _ => apply Z.leb_le in H
           | H : (_ <? _) = true |- _ => apply Z.ltb_lt in H
           end;
           zbool; try reflexivity;
           match goal with
           | H : _ \/ _ |- _ =>
               destruct H as [H|H];
               [apply Z.leb_gt in H|apply Z.ltb_ge in H]; exfalso; lia
           end).
    all: destruct (Z.leb_spec 240 b0), (Z.ltb_spec b0 245); cbn [andb];
      try discriminate.
    all: destruct t0 as [|b1 [|b2 [|b3 t3]]]; try discriminate;
      match goal with
      | |- (if ?c then _ else _) = _ -> _ =>
          destruct c eqn:C; [|discriminate]
      end;
      repeat (apply andb_true_iff in C as [C ?]);
      apply Rec; [cbn [length] in Hl; lia|];
      repeat match goal with
      | H : _ && _ = true |- _ => apply andb_true_iff in H as [? ?]
      | H : (_ <=? _) = true |- _ => apply Z.leb_le in H
      | H : (_ <? _) = true |- _ => apply Z.ltb_lt in H
      end;
      zbool; reflexivity. }
  apply (H (length b)). lia.
Qed.

Lemma encodable_writes (v : value) :
  encodable v = true -> exists b, _write v = Ok b.
Proof.
  induction v as [s|b|n|m| |l IH|d IH] using value_ind;
    cbn [encodable _write]; intros H; eauto.
  - destruct (utf8_encode_scalar s H) as (b & ->). eauto.
  - destruct (utf8_encode_scalar m H) as (b & ->). eauto.
  - assert (W : exists body, write_items _write l = Ok body).
    { induction IH as [|x l Hx _ IHl]; cbn [write_items forallb] in *;
        [eauto|].
      apply andb_true_iff in H as [H1 H2].
      destruct (Hx H1) as (bx & ->). destruct (IHl H2) as (bl & ->).
      cbn [bind]. eauto. }
    destruct W as (body & ->). cbn [bind]. eauto.
  - assert (W : exists body, write_pairs _write d = Ok body).
    { induction IH as [|[k v] d [Hk Hv] _ IHd];
        cbn [write_pairs forallb fst snd] in *; [eauto|].
      apply andb_true_iff in H as [H1 H2].
      apply andb_true_iff in H1 as [H1 H1'].
      destruct (Hk H1) as (bk & ->). destruct (Hv H1') as (bv & ->).
      destruct (IHd H2) as (bd & ->). cbn [bind]. eauto. }
    destruct W as (body & ->). cbn [bind]. eauto.
Qed.

Lemma dict_set_encodable (k v : value) (d : dict) :
  entries_encodable d = true -> encodable k = true -> encodable v = true ->
  entries_encodable (dict_set k v d) = true.
Proof.
  unfold entries_encodable. intros Hd Hk Hv.
  induction d as [|[k0 v0] d IH]; cbn [dict_set forallb fst snd] in *.
  - rewrite Hk, Hv. reflexivity.
  - apply andb_true_iff in Hd as [H0 Hd].
    apply andb_true_iff in H0 as [H0 H0'].
    destruct (key_eqb k k0); cbn [forallb fst snd].
    + rewrite H0, Hv, Hd. reflexivity.
    + rewrite H0, H0', (IH Hd). reflexivity.
Qed.

Lemma dict_remove_encodable (k : value) (d : dict) :
  entries_encodable d = true -> entries_encodable (dict_remove k d) = true.
Proof.
  unfold entries_encodable.
  induction d as [|[k0 v0] d IH]; cbn [dict_remove forallb fst snd]; [auto|].
  intros H. apply andb_true_iff in H as [H0 Hd].
  destruct (key_eqb k k0); [exact Hd|].
  cbn [forallb fst snd]. rewrite H0, (IH Hd). reflexivity.
Qed.

Lemma dict_get_encodable (k : value) (d : dict) :
  entries_encodable d = true ->
  encodable match dict_get k d with Some v => v | None => VNone end = true.
Proof.
  unfold entries_encodable.
  induction d as [|[k0 v0] d IH]; cbn [dict_get forallb fst snd];
    [reflexivity|].
  intros H. apply andb_true_iff in H as [H0 Hd].
  apply andb_true_iff in H0 as [_ H0].
  destruct (key_eqb k k0); [exact H0|exact (IH Hd)].
Qed.

Lemma pairs_of_encodable (items : list value) :
  forallb encodable items = true ->
  entries_encodable (pairs_of items) = true.
Proof.
  assert (H : forall n (l : list value), (length l <= n)%nat ->
    forallb encodable l = true -> entries_encodable (pairs_of l) = true).
  { induction n as [|n IH]; intros [|k [|v l]] Hl He; try reflexivity;
      cbn [length] in Hl; try lia.
    cbn [forallb] in He. apply andb_true_iff in He as [Hk He].
    apply andb_true_iff in He as [Hv He].
    unfold entries_encodable. cbn [pairs_of forallb fst snd].
    rewrite Hk, Hv. apply IH; [lia|exact He]. }
  apply (H (length items)). lia.
Qed.

Lemma write_all_encodable (pairs : list (value * value)) :
  forall kv,
    entries_encodable kv = true -> entries_encodable pairs = true ->
    entries_encodable (write_all kv pairs) = true.
Proof.
  induction pairs as [|[k v] t IH]; intros kv Hkv Hp; [exact Hkv|].
  unfold entries_encodable in Hp. cbn [forallb fst snd] in Hp.
  apply andb_true_iff in Hp as [H0 Hp]. apply andb_true_iff in H0 as [Hk Hv].
  change (write_all kv ((k, v) :: t)) with (write_all (dict_set k v kv) t).
  apply IH; [|exact Hp]. apply dict_set_encodable; assumption.
Qed.

Lemma dict_of_pairs_encodable (pairs : list (value * value)) (d : dict) :
  dict_of_pairs [] pairs = Ok d ->
  entries_encodable pairs = true -> entries_encodable d = true.
Proof.
  intros E Hp.
  destruct (forallb hashable (map fst pairs)) eqn:Hh.
  - rewrite (dict_of_pairs_hashable pairs [] Hh) in E. injection E as <-.
    apply write_all_encodable; [reflexivity|exact Hp].
  - rewrite (dict_of_pairs_unhashable pairs [] Hh) in E. discriminate.
Qed.

Lemma read_items_encodable rec (num : nat) :
  (forall s v s', rec s = Ok (v, s') -> encodable v = true) ->
  forall s vs s', read_items rec num s = Ok (vs, s') ->
    forallb encodable vs = true.
Proof.
  intros Hrec. induction num as [|n IH]; intros s vs s'; cbn [read_items].
  - intros E; inversion E; reflexivity.
  - destruct (rec s) as [[v s1]| |] eqn:E1; cbn [bind]; try discriminate.
    destruct (read_items rec n s1) as [[vs1 s2]| |] eqn:E2; cbn [bind];
      try discriminate.
    intros E; inversion E; subst. cbn [forallb].
    rewrite (Hrec _ _ _ E1), (IH _ _ _ E2). reflexivity.
Qed.

Lemma handle_request_encodable (fuel : nat) :
  forall s v s', handle_request fuel s = Ok (v, s') -> encodable v = true.
Proof.
  induction fuel as [|f IH]; intros s v s'; cbn [handle_request];
    [discriminate|].
  destruct s as [|c t]; [discriminate|].
  repeat match goal with
  | |- context [if ?b then _ else _] => destruct b
  end; try discriminate.
  - unfold handle_simple_string. destruct (readline t) as [l r].
    destruct (utf8_decode _) as [x|] eqn:E; [|discriminate].
    intros H; inversion H; subst. exact (utf8_decode_scalar _ _ E).
  - unfold handle_error. destruct (readline t) as [l r].
    destruct (utf8_decode _) as [x|] eqn:E; [|discriminate].
    intros H; inversion H; subst. exact (utf8_decode_scalar _ _ E).
  - unfold handle_integer. destruct (readline t) as [l r].
    destruct (py_int _); cbn [bind]; try discriminate.
    intros H; inversion H; reflexivity.
  - unfold handle_string. destruct (readline t) as [l r].
    destruct (py_int _) as [n| |]; cbn [bind]; try discriminate.
    destruct (n =? -1); [intros H; inversion H; reflexivity|].
    destruct (read _ _) as [[d r']| |]; cbn [bind]; try discriminate.
    intros H; inversion H; subst. unfold decode_or_raw.
    destruct (utf8_decode _) as [x|] eqn:E; [|reflexivity].
    exact (utf8_decode_scalar _ _ E).
  - unfold handle_array. destruct (readline t) as [l r].
    destruct (py_int _) as [n| |]; cbn [bind]; try discriminate.
    destruct (read_items _ _ r) as [[vs s1]| |] eqn:E; cbn [bind];
      try discriminate.
    intros H; inversion H; subst.
    exact (read_items_encodable _ _ IH _ _ _ E).
  - unfold handle_dict. destruct (readline t) as [l r].
    destruct (py_int _) as [n| |]; cbn [bind]; try discriminate.
    destruct (read_items _ _ r) as [[vs s1]| |] eqn:E; cbn [bind];
      try discriminate.
    destruct (dict_of_pairs _ _) as [d| |] eqn:D; cbn [bind];
      try discriminate.
    intros H; inversion H; subst. rewrite zip_every_other in D.
    apply (dict_of_pairs_encodable _ _ D). apply pairs_of_encodable.
    exact (read_items_encodable _ _ IH _ _ _ E).
Qed.

(** Whatever the decoder returns, the encoder accepts: the server can
    send back every value it can receive. *)
Theorem decoded_value_is_written (s rest : bytes) (v : value) :
  decode s = Ok (v, rest) -> exists b, _write v = Ok b.
Proof.
  intros D. apply encodable_writes.
  exact (handle_request_encodable _ _ _ _ D).
Qed.

Lemma decoded_value_is_written_witness :
  exists b,
    _write (VDict [(VStr [233], VList [VBytes [233]; VNone])]) = Ok b.
Proof.
  exact (decoded_value_is_written
           (lit "%1" ++ CRLF ++ lit "+" ++ [195; 169] ++ CRLF
            ++ lit "*2" ++ CRLF ++ lit "$1" ++ CRLF ++ [233] ++ CRLF
            ++ lit "$-1" ++ CRLF) []
           (VDict [(VStr [233], VList [VBytes [233]; VNone])]) eq_refl).
Defined.

(** ** The encoder never fails in a session *)

Lemma split_ws_pieces (P sp : Z -> bool) (l : list Z) :
  forall cur,
    forallb P cur = true -> forallb P l = true ->
    forallb (forallb P) (split_ws sp cur l) = true.
Proof.
  assert (R : forall cur, forallb P cur = true -> forallb P (rev cur) = true).
  { intros cur H. apply forallb_forall. intros x Hx. apply in_rev in Hx.
    rewrite forallb_forall in H. exact (H x Hx). }
  induction l as [|c l IH]; intros cur Hc Hl; cbn [split_ws].
  - destruct cur; [reflexivity|]. cbn [forallb]. rewrite (R _ Hc). reflexivity.
  - cbn [forallb] in Hl. apply andb_true_iff in Hl as [Hx Hl].
    destruct (sp c).
    + destruct cur as [|y cur']; [apply IH; auto|].
      cbn [forallb]. rewrite (R _ Hc). apply IH; auto.
    + apply IH; [|exact Hl]. cbn [forallb]. rewrite Hx, Hc. reflexivity.
Qed.

Lemma forallb_map_comp {A B} (f : B -> bool) (g : A -> B) (l : list A) :
  forallb f (map g l) = forallb (fun x => f (g x)) l.
Proof.
  induction l as [|x l IH]; cbn [map forallb]; [reflexivity|].
  rewrite IH. reflexivity.
Qed.

Lemma tokens_encodable (data : value) (l : list value) :
  encodable data = true -> tokens data = Ok l -> forallb encodable l = true.
Proof.
  destruct data as [s|b|n|m| |l0|d]; cbn [encodable tokens]; intros H E;
    try discriminate; injection E as <-.
  - rewrite forallb_map_comp. unfold str_split.
    exact (split_ws_pieces is_scalar is_unicode_space s [] eq_refl H).
  - rewrite forallb_map_comp. apply forallb_forall. reflexivity.
  - exact H.
Qed.

Lemma str_upper_scalar (to_upper_full : Z -> list Z) (s : str) :
  scalar_table to_upper_full ->
  forallb is_scalar s = true ->
  forallb is_scalar (str_upper to_upper_full s) = true.
Proof.
  intros T. induction s as [|c s IH]; cbn [forallb]; [reflexivity|].
  intros H. apply andb_true_iff in H as [Hc Hs].
  unfold str_upper. cbn [flat_map]. rewrite forallb_app.
  fold (str_upper to_upper_full s). rewrite (IH Hs), andb_true_r.
  destruct (Z.ltb_spec c 128); [|exact (T c Hc)].
  cbn [forallb]. rewrite andb_true_r.
  destruct ((97 <=? c) && (c <=? 122)) eqn:E; [|exact Hc].
  apply andb_true_iff in E as [E1 E2]. apply Z.leb_le in E1, E2.
  unfold is_scalar. zbool; reflexivity.
Qed.

Lemma command_name_scalar (to_upper_full : Z -> list Z) (cmd : value)
    (name : str) :
  scalar_table to_upper_full ->
  encodable cmd = true ->
  command_name to_upper_full cmd = Ok name ->
  forallb is_scalar name = true.
Proof.
  intros T H. destruct cmd as [s|b|n|m| |l|d]; cbn [command_name];
    try discriminate.
  - intros E; injection E as <-. exact (str_upper_scalar _ s T H).
  - destruct (utf8_decode b) as [s|] eqn:D; [|discriminate].
    intros E; injection E as <-.
    exact (str_upper_scalar _ s T (utf8_decode_scalar b s D)).
Qed.

Lemma mget_items_encodable (kv : dict) (keys : list value) :
  entries_encodable kv = true ->
  sound_result (vs <- mget_items kv keys ;; Ok (VList vs)).
Proof.
  intros Hkv. induction keys as [|k t IH]; cbn [mget_items]; [reflexivity|].
  destruct (hashable k); [|cbn; split; [discriminate|intros; discriminate]].
  destruct (mget_items kv t) as [vs| |]; cbn [bind sound_result] in *;
    try exact IH; try exact I.
  cbn [encodable forallb] in *. rewrite IH, (dict_get_encodable k kv Hkv).
  reflexivity.
Qed.

Lemma mset_loop_encodable (items : list value) :
  forall kv count,
    entries_encodable kv = true -> forallb encodable items = true ->
    sound_result (fst (mset_loop kv count items)) /\
    entries_encodable (snd (mset_loop kv count items)) = true.
Proof.
  assert (H : forall n (l : list value), (length l <= n)%nat ->
    forall kv count,
      entries_encodable kv = true -> forallb encodable l = true ->
      sound_result (fst (mset_loop kv count l)) /\
      entries_encodable (snd (mset_loop kv count l)) = true).
  { induction n as [|n IH]; intros [|k [|v l]] Hl kv count Hkv He;
      cbn [length] in Hl; try lia; cbn [mset_loop fst snd sound_result];
      try (split; [reflexivity|exact Hkv]);
      try (split; [split; [discriminate|intros; discriminate]|exact Hkv]).
    cbn [forallb] in He. apply andb_true_iff in He as [Hk He].
    apply andb_true_iff in He as [Hv He].
    destruct (hashable k).
    - apply IH; [lia| |exact He]. apply dict_set_encodable; assumption.
    - cbn [fst snd sound_result].
      split; [split; [discriminate|intros; discriminate]|exact Hkv]. }
  intros kv count. apply (H (length items)). lia.
Qed.

Lemma commands_encodable (name : str) (h : handler) :
  lookup_command name get_commands = Some h ->
  forall kv args,
    entries_encodable kv = true -> forallb encodable args = true ->
    sound_result (fst (h kv args)) /\
    entries_encodable (snd (h kv args)) = true.
Proof.
  assert (TE : sound_result (Raise TypeError))
    by (split; [discriminate|intros; discriminate]).
  unfold get_commands. cbn [lookup_command].
  repeat match goal with
  | |- context [if ?b then _ else _] => destruct b
  end; intros E; inversion E; subst; intros kv args Hkv Ha.
  - unfold get. destruct args as [|k [|? ?]]; try (split; assumption).
    destruct (hashable k); [|split; assumption].
    split; [|exact Hkv]. exact (dict_get_encodable k kv Hkv).
  - unfold set. destruct args as [|k [|v [|? ?]]]; try (split; assumption).
    destruct (hashable k); [|split; assumption].
    cbn [forallb] in Ha. apply andb_true_iff in Ha as [Hk Ha].
    apply andb_true_iff in Ha as [Hv _].
    split; [reflexivity|]. apply dict_set_encodable; assumption.
  - unfold delete. destruct args as [|k [|? ?]]; try (split; assumption).
    destruct (hashable k); [|split; assumption].
    split; [reflexivity|]. apply dict_remove_encodable. exact Hkv.
  - unfold flush. destruct args; [split; reflexivity|split; assumption].
  - unfold mget. split; [|exact Hkv]. cbn [fst].
    exact (mget_items_encodable kv args Hkv).
  - apply mset_loop_encodable; assumption.
Qed.

Lemma decode_exception (fuel : nat) :
  forall s, handle_request fuel s <> Raise UnicodeEncodeError.
Proof.
  assert (PI : forall b, py_int b <> Raise UnicodeEncodeError).
  { intros b. unfold py_int. destruct (snd _) as [|c t]; [discriminate|].
    destruct (is_digit c); [|discriminate].
    destruct (parse_digits 0 false (c :: t)); discriminate. }
  assert (DP : forall p acc, dict_of_pairs acc p <> Raise UnicodeEncodeError).
  { induction p as [|[k v] p IHp]; intros acc; cbn [dict_of_pairs];
      [discriminate|]. destruct (hashable k); [apply IHp|discriminate]. }
  induction fuel as [|f IH]; intros s; cbn [handle_request]; [discriminate|].
  assert (RI : forall n s0, read_items (handle_request f) n s0
                            <> Raise UnicodeEncodeError).
  { induction n as [|n IHn]; intros s0; cbn [read_items]; [discriminate|].
    pose proof (IH s0) as H0.
    destruct (handle_request f s0) as [[v s1]| |]; cbn [bind];
      try congruence.
    pose proof (IHn s1) as H1.
    destruct (read_items (handle_request f) n s1) as [[vs s2]| |];
      cbn [bind]; congruence. }
  destruct s as [|c t]; [discriminate|].
  repeat match goal with
  | |- context [if ?b then _ else _] => destruct b
  end; try discriminate.
  - unfold handle_simple_string. destruct (readline t) as [l r].
    destruct (utf8_decode _); discriminate.
  - unfold handle_error. destruct (readline t) as [l r].
    destruct (utf8_decode _); discriminate.
  - unfold handle_integer. destruct (readline t) as [l r].
    pose proof (PI (rstrip is_crlf l)).
    destruct (py_int _); cbn [bind]; congruence.
  - unfold handle_string. destruct (readline t) as [l r].
    pose proof (PI (rstrip is_crlf l)).
    destruct (py_int _) as [n| |]; cbn [bind]; try congruence.
    destruct (n =? -1); [discriminate|]. unfold read.
    destruct (n + 2 <? -1); [discriminate|].
    destruct (n + 2 =? -1); discriminate.
  - unfold handle_array. destruct (readline t) as [l r].
    pose proof (PI (rstrip is_crlf l)).
    destruct (py_int _) as [n| |]; cbn [bind]; try congruence.
    pose proof (RI (Z.to_nat n) r).
    destruct (read_items _ _ r) as [[vs s1]| |]; cbn [bind]; congruence.
  - unfold handle_dict. destruct (readline t) as [l r].
    pose proof (PI (rstrip is_crlf l)).
    destruct (py_int _) as [n| |]; cbn [bind]; try congruence.
    pose proof (RI (Z.to_nat (n * 2)) r).
    destruct (read_items _ _ r) as [[vs s1]| |]; cbn [bind]; try congruence.
    pose proof (DP (combine (every_other vs) (every_other (tl vs))) []).
    destruct (dict_of_pairs _ _); cbn [bind]; congruence.
Qed.

Section EncoderFacts.
Variable to_upper_full : Z -> list Z.
Hypothesis table : scalar_table to_upper_full.

Lemma respond_encodes (kv : dict) (data : value) :
  entries_encodable kv = true -> encodable data = true ->
  fst (respond to_upper_full kv data) <> Raise UnicodeEncodeError /\
  entries_encodable (snd (respond to_upper_full kv data)) = true.
Proof.
  intros Hkv Hd. unfold respond, get_response.
  destruct (tokens data) as [[|cmd args]| |] eqn:T; cbn [bind fst snd];
    try (split; [discriminate|exact Hkv]).
  - pose proof (tokens_encodable data _ Hd T) as Ha.
    cbn [forallb] in Ha. apply andb_true_iff in Ha as [Hc Ha].
    destruct (command_name to_upper_full cmd) as [name|e|] eqn:C;
      cbn [bind fst snd].
    + pose proof (command_name_scalar to_upper_full cmd name table Hc C) as Hn.
      destruct (lookup_command name get_commands) as [h|] eqn:L.
      * destruct (commands_encodable name h L kv args Hkv Ha) as [S1 S2].
        destruct (h kv args) as [r kv']. cbn [fst snd] in *.
        split; [|exact S2].
        destruct r as [v|e|]; cbn [sound_result bind] in *;
          [|destruct S1 as [S1 S3]; destruct e; cbn [bind];
            first [discriminate|congruence|destruct (S3 _ eq_refl)]
           |discriminate].
        destruct (encodable_writes v S1) as (b & E).
        unfold write_response. rewrite E. discriminate.
      * cbn [bind fst snd]. split; [|exact Hkv].
        unfold write_response. cbn [_write].
        destruct (utf8_encode_scalar (lit "Command not found: " ++ name))
          as (b & ->); [|discriminate].
        rewrite forallb_app, Hn. reflexivity.
    + split; [|exact Hkv]. destruct cmd as [?|b|?|?| |?|?];
        cbn [command_name] in C; try discriminate;
        try (injection C as <-; discriminate).
      destruct (utf8_decode b); [discriminate|].
      injection C as <-. discriminate.
    + split; [discriminate|exact Hkv].
  - split; [|exact Hkv]. destruct data; cbn [tokens] in T; try discriminate;
      injection T as <-; discriminate.
Qed.

End EncoderFacts.


(** ** Entries and their number *)

Lemma dict_set_length (k v : value) (d : dict) :
  length (dict_set k v d)
  = match dict_get k d with
    | Some _ => length d
    | None => S (length d)
    end.
Proof.
  induction d as [|[k0 v0] d IH]; cbn [dict_set dict_get length];
    [reflexivity|].
  destruct (key_eqb k k0); cbn [length]; [reflexivity|].
  rewrite IH. destruct (dict_get k d); reflexivity.
Qed.

(** SET on a key that is in the store replaces its value and adds no
    entry; on a new key it adds one.  FLUSH then returns that number. *)
Theorem set_then_flush_counts (kv : dict) (k v : value) :
  hashable k = true ->
  flush (snd (set kv [k; v])) []
  = (Ok (VInt (Z.of_nat (match dict_get k kv with
                          | Some _ => length kv
                          | None => S (length kv)
                          end))), []).
Proof.
  intros Hk. unfold set. rewrite Hk. cbn [snd flush].
  rewrite dict_set_length. reflexivity.
Qed.

Lemma set_then_flush_counts_witness :
  flush (snd (set [(VStr (lit "a"), VInt 1)] [VStr (lit "a"); VInt 2])) []
  = (Ok (VInt 1), []).
Proof.
  exact (set_then_flush_counts [(VStr (lit "a"), VInt 1)] (VStr (lit "a"))
           (VInt 2) eq_refl).
Defined.
